(** * prompter: the question-answering protocol of [prompt.go]

    A shallow embedding of [Question.Ask], [Question.Password] and
    [Question.Confirm] together with the readers they drive, followed by the
    properties of the protocol.

    Conventions of the embedding:
    - a Go [string] is a [string] of bytes;
    - a Go [error] value is an inhabitant of [error], [nil] is [None];
    - the [*Prompter], the context handed to the call, the terminal behind
      the file descriptor and a log of observable events form the [World]
      that every operation threads;
    - [goto retry] is the [Retry] outcome of one pass through the body of
      [Ask]; the loop itself is driven by a fuel argument, because the
      source loop is unbounded. *)

From Stdlib Require Import String Ascii List Bool Arith ZArith Lia.
Import ListNotations.
Open Scope string_scope.

(** ** Errors *)

Inductive error : Type :=
| ErrRequired                 (* var ErrRequired *)
| Canceled                    (* context.Canceled *)
| DeadlineExceeded            (* context.DeadlineExceeded *)
| EOF                         (* io.EOF *)
| IOError (msg : string)      (* any other failure of the stream *)
| Errorf (msg : string).      (* fmt.Errorf / errors.New *)

(** The [Error()] method, as printed by [fmt.Fprintln(w, err)]. *)
Definition Error (e : error) : string :=
  match e with
  | ErrRequired => "prompter: input is required"
  | Canceled => "context canceled"
  | DeadlineExceeded => "context deadline exceeded"
  | EOF => "EOF"
  | IOError msg => msg
  | Errorf msg => msg
  end.

(** [errors.Is(err, io.EOF)] *)
Definition Is_EOF (e : error) : bool :=
  match e with EOF => true | _ => false end.

(** ** The [strings] functions the source calls *)

Definition LF : ascii := "010"%char.
Definition CR : ascii := "013"%char.
Definition crlf : string := String CR (String LF EmptyString).

Fixpoint contains (c : ascii) (cutset : string) : bool :=
  match cutset with
  | EmptyString => false
  | String d rest => Ascii.eqb c d || contains c rest
  end.

(** [strings.TrimRight(s, cutset)]: drop every trailing byte that occurs in
    [cutset]. *)
Fixpoint TrimRight (s cutset : string) : string :=
  match s with
  | EmptyString => EmptyString
  | String c rest =>
      match TrimRight rest cutset with
      | EmptyString => if contains c cutset then EmptyString
                       else String c EmptyString
      | t => String c t
      end
  end.

Definition lower (c : ascii) : ascii :=
  let n := nat_of_ascii c in
  if ((65 <=? n) && (n <=? 90))%nat then ascii_of_nat (n + 32) else c.

(** [strings.ToLower] on the bytes of [s].  Only the letters [A]-[Z] are
    mapped; the source compares the result with ASCII tokens whose letters
    no rune outside ASCII lower-cases to, so the byte-wise map decides the
    same comparisons. *)
Fixpoint ToLower (s : string) : string :=
  match s with
  | EmptyString => EmptyString
  | String c rest => String (lower c) (ToLower rest)
  end.

(** ** The input stream: [bufio.Reader] over an [io.Reader] *)

(** The bytes still to come, the error the stream reports once they are
    used up ([EOF] for a stream that simply ends), and the descriptor when
    the stream is a file. *)
Record Reader : Type := {
  pending : string;
  ending : error;
  Fd : option Z
}.

(** Split after the first [delim]: the line with its delimiter, and the
    rest.  [None] when [delim] does not occur. *)
Fixpoint cut (delim : ascii) (s : string) : option (string * string) :=
  match s with
  | EmptyString => None
  | String c rest =>
      if Ascii.eqb c delim then Some (String c EmptyString, rest)
      else match cut delim rest with
           | Some (line, rest') => Some (String c line, rest')
           | None => None
           end
  end.

(** [bufio.Reader.ReadString(delim)]: the bytes up to and including the
    delimiter; when the stream ends first, what was read together with the
    stream's error. *)
Definition advance (rest : string) (r : Reader) : Reader :=
  {| pending := rest; ending := ending r; Fd := Fd r |}.

Definition ReadString (delim : ascii) (r : Reader)
  : (string * option error) * Reader :=
  match cut delim (pending r) with
  | Some (line, rest) => ((line, None), advance rest r)
  | None => ((pending r, Some (ending r)), advance EmptyString r)
  end.

(** ** The terminal, [golang.org/x/term] *)

(** The descriptors that are terminals, and what the successive calls of
    [term.ReadPassword] yield there (a line without its terminator, or a
    failure). *)
Record Term : Type := {
  ttys : list Z;
  typed : list (error + string)
}.

Definition IsTerminal (t : Term) (fd : Z) : bool :=
  existsb (Z.eqb fd) (ttys t).

Definition ReadPassword (t : Term) : (string * option error) * Term :=
  match typed t with
  | [] => ((EmptyString, Some EOF), t)
  | inl e :: rest => ((EmptyString, Some e), {| ttys := ttys t; typed := rest |})
  | inr s :: rest => ((s, None), {| ttys := ttys t; typed := rest |})
  end.

(** ** Contexts *)

(** A context is observed twice per read: by [ctx.Err()] on entry and by
    [<-ctx.Done()] in the [select].  [WithCancel cause n inflight] is a
    context under which [n] more reads complete; it is then done with
    [cause], either before the next read is entered ([inflight = false]) or
    while that read is in flight and before it delivers
    ([inflight = true]). *)
Inductive Context : Type :=
| Background
| WithCancel (cause : error) (reads : nat) (inflight : bool).

(** [ctx.Err()] *)
Definition ctx_Err (c : Context) : option error :=
  match c with
  | WithCancel cause 0 false => Some cause
  | _ => None
  end.

(** Which case of the [select] fires. *)
Inductive Race : Type :=
| ReadFirst (c' : Context)
| DoneFirst (cause : error) (c' : Context).

Definition race (c : Context) : Race :=
  match c with
  | Background => ReadFirst Background
  | WithCancel cause 0 _ => DoneFirst cause (WithCancel cause 0 false)
  | WithCancel cause (S n) b => ReadFirst (WithCancel cause n b)
  end.

(** ** Prompter, Question and the world *)

Record Prompter : Type := {
  writer : string;      (* everything written to the io.Writer so far *)
  reader : Reader;
  fd : Z
}.

Definition getFd (r : Reader) : Z :=
  match Fd r with
  | Some f => f
  | None => (-1)%Z
  end.

Definition New (w : string) (r : Reader) : Prompter :=
  {| writer := w; reader := r; fd := getFd r |}.

Definition validator : Type := string -> option error.

(** The [prompter] field is the [Prompter] of the [World]. *)
Record Question : Type := {
  validators : list validator;
  defaultTo : string;
  optional : bool
}.

Definition newQuestion : Question :=
  {| validators := []; defaultTo := EmptyString; optional := false |}.

(** Observable events that leave no mark on the writer or the reader. *)
Inductive Event : Type :=
| Go_scanLine                            (* go q.scanLine(...) *)
| Go_scanPassword                        (* go q.scanPassword(...) *)
| Validate (i : nat) (input : string).   (* q.validators[i](input) *)

Record World : Type := {
  prompter : Prompter;
  term : Term;
  ctx : Context;
  trace : list Event
}.

Definition set_writer (s : string) (w : World) : World :=
  {| prompter := {| writer := s; reader := reader (prompter w);
                    fd := fd (prompter w) |};
     term := term w; ctx := ctx w; trace := trace w |}.

Definition set_reader (r : Reader) (w : World) : World :=
  {| prompter := {| writer := writer (prompter w); reader := r;
                    fd := fd (prompter w) |};
     term := term w; ctx := ctx w; trace := trace w |}.

Definition set_term (t : Term) (w : World) : World :=
  {| prompter := prompter w; term := t; ctx := ctx w; trace := trace w |}.

Definition set_ctx (c : Context) (w : World) : World :=
  {| prompter := prompter w; term := term w; ctx := c; trace := trace w |}.

Definition log (e : Event) (w : World) : World :=
  {| prompter := prompter w; term := term w; ctx := ctx w;
     trace := trace w ++ [e] |}.

(** [fmt.Fprint(p.writer, a...)] with string operands: no separator. *)
Definition Fprint (ops : list string) (w : World) : World :=
  set_writer (writer (prompter w) ++ String.concat EmptyString ops) w.

(** [fmt.Fprintln(p.writer, s)] *)
Definition Fprintln (s : string) (w : World) : World :=
  set_writer (writer (prompter w) ++ s ++ String LF EmptyString) w.

(** ** Builders *)

Definition Default (defaultTo' : string) (q : Question) : Question :=
  {| validators := validators q; defaultTo := defaultTo';
     optional := optional q |}.

Definition Optional (optional' : bool) (q : Question) : Question :=
  {| validators := validators q; defaultTo := defaultTo q;
     optional := optional' |}.

Definition Is (vs : list validator) (q : Question) : Question :=
  {| validators := validators q ++ vs; defaultTo := defaultTo q;
     optional := optional q |}.

Definition Prompter_Default (d : string) : Question := Default d newQuestion.
Definition Prompter_Optional (o : bool) : Question := Optional o newQuestion.
Definition Prompter_Is (vs : list validator) : Question := Is vs newQuestion.

(** ** Reading *)

(** What the scanning goroutine sends, and on which channel. *)
Inductive Msg : Type :=
| OnInput (input : string)
| OnError (err : error).

Definition scanLine (q : Question) (r : Reader) : Msg * Reader :=
  let '((input, err), r') := ReadString LF r in
  let trimmed := OnInput (TrimRight input crlf) in
  match err with
  | Some e =>
      if negb (Is_EOF e) then (OnError e, r')
      else if negb (defaultTo q =? EmptyString) then (OnInput (defaultTo q), r')
      else if negb (optional q) then (OnError ErrRequired, r')
      else (trimmed, r')
  | None => (trimmed, r')
  end.

Definition scanPassword (q : Question) (p : Prompter) (t : Term)
  : Msg * Reader * Term :=
  if (-1 <? fd p)%Z && IsTerminal t (fd p) then
    match ReadPassword t with
    | ((_, Some e), t') => (OnError e, reader p, t')
    | ((pass, None), t') => (OnInput pass, reader p, t')
    end
  else
    let '(m, r') := scanLine q (reader p) in (m, r', t).

(** The [select] over [inputCh] and [errorCh]. *)
Definition receive (m : Msg) (w : World) : (string * option error) * World :=
  match m with
  | OnInput input => ((input, None), w)
  | OnError err => ((EmptyString, Some err), w)
  end.

(** [readInput]: nothing is started under a context that is already done;
    otherwise the goroutine is launched and raced against [ctx.Done()].
    When [ctx.Done()] wins, the goroutine is left behind: it still takes
    what it reads from the shared reader, and what it would have sent
    reaches nobody. *)
Definition readInput (q : Question) (w : World)
  : (string * option error) * World :=
  match ctx_Err (ctx w) with
  | Some e => ((EmptyString, Some e), w)
  | None =>
      let w1 := log Go_scanLine w in
      let '(m, r') := scanLine q (reader (prompter w1)) in
      match race (ctx w1) with
      | DoneFirst e c' =>
          ((EmptyString, Some e), set_reader r' (set_ctx c' w1))
      | ReadFirst c' => receive m (set_reader r' (set_ctx c' w1))
      end
  end.

Definition readPassword (q : Question) (w : World)
  : (string * option error) * World :=
  match ctx_Err (ctx w) with
  | Some e => ((EmptyString, Some e), w)
  | None =>
      let w1 := log Go_scanPassword w in
      let '(m, r', t') := scanPassword q (prompter w1) (term w1) in
      match race (ctx w1) with
      | DoneFirst e c' =>
          ((EmptyString, Some e),
           set_term t' (set_reader r' (set_ctx c' w1)))
      | ReadFirst c' => receive m (set_term t' (set_reader r' (set_ctx c' w1)))
      end
  end.

(** ** Ask, Password *)

(** [Return r w]: the call returned [r]; [Retry w]: control stands at the
    label [retry]. *)
Inductive Outcome (A : Type) : Type :=
| Return (r : A) (w : World)
| Retry (w : World).
Arguments Return {A} r w.
Arguments Retry {A} w.

Definition world_of {A} (o : Outcome A) : World :=
  match o with
  | Return _ w => w
  | Retry w => w
  end.

(** The [for _, validate := range q.validators] loop: the first error, if
    any.  [i] is the index of the head of [vs] in [q.validators]. *)
Fixpoint validate (vs : list validator) (i : nat) (input : string) (w : World)
  : option error * World :=
  match vs with
  | [] => (None, w)
  | v :: vs' =>
      let w1 := log (Validate i input) w in
      match v input with
      | Some err => (Some err, w1)
      | None => validate vs' (S i) input w1
      end
  end.

(** The part of [Ask] and [Password] below the read. *)
Definition resolve (q : Question) (input : string) (w : World)
  : Outcome (string * option error) :=
  let checked :=
    match validate (validators q) 0 input w with
    | (Some err, w1) => Retry (Fprintln (Error err) w1)
    | (None, w1) => Return (input, None) w1
    end in
  if input =? EmptyString then
    if negb (defaultTo q =? EmptyString) then Return (defaultTo q, None) w
    else if negb (optional q) then Retry w
    else checked
  else checked.

(** One pass through [Ask], from [retry:] to a [return] or a [goto]. *)
Definition Ask_pass (q : Question) (prompt : string) (w : World)
  : Outcome (string * option error) :=
  let w1 := Fprint [prompt; " "] w in
  match readInput q w1 with
  | ((_, Some err), w2) => Return (EmptyString, Some err) w2
  | ((input, None), w2) => resolve q input w2
  end.

Definition Password_pass (q : Question) (prompt : string) (w : World)
  : Outcome (string * option error) :=
  let w1 := Fprint [prompt; " "] w in
  match readPassword q w1 with
  | ((_, Some err), w2) => Return (EmptyString, Some err) w2
  | ((pass, None), w2) => resolve q pass (Fprintln EmptyString w2)
  end.

(** The loop: at most [fuel] passes. *)
Fixpoint loop {A} (pass : World -> Outcome A) (fuel : nat) (w : World)
  : Outcome A :=
  match fuel with
  | 0 => Retry w
  | S fuel' =>
      match pass w with
      | Return r w' => Return r w'
      | Retry w' => loop pass fuel' w'
      end
  end.

Definition Ask (fuel : nat) (q : Question) (prompt : string) (w : World)
  : Outcome (string * option error) :=
  loop (Ask_pass q prompt) fuel w.

Definition Password (fuel : nat) (q : Question) (prompt : string) (w : World)
  : Outcome (string * option error) :=
  loop (Password_pass q prompt) fuel w.

Definition Prompter_Ask (fuel : nat) (prompt : string) (w : World) :=
  Ask fuel newQuestion prompt w.

Definition Prompter_Password (fuel : nat) (prompt : string) (w : World) :=
  Password fuel newQuestion prompt w.

(** ** Confirm *)

Definition isYes (s : string) : bool :=
  let l := ToLower s in
  (l =? "y") || (l =? "yes") || (l =? "true").

(** What [Confirm] makes of the result of [Ask]. *)
Definition answer (o : Outcome (string * option error))
  : Outcome (bool * option error) :=
  match o with
  | Return (_, Some err) w => Return (false, Some err) w
  | Return (input, None) w => Return (isYes input, None) w
  | Retry w => Retry w
  end.

Section Confirm.

(** [strconv.Quote], which the verb [%q] prints a string with. *)
Variable Quote : string -> string.

(** The function literal that [Confirm] appends. *)
Definition yesOrNo (s : string) : option error :=
  let l := ToLower s in
  if (l =? "y") || (l =? "yes") then None
  else if (l =? "n") || (l =? "no") then None
  else Some (Errorf ("invalid value " ++ Quote s ++ ", must enter yes or no")).

(** [Confirm] changes the [Question] it is called on; the changed
    [Question] is returned next to the outcome. *)
Definition Confirm (fuel : nat) (q : Question) (prompt : string) (w : World)
  : Outcome (bool * option error) * Question :=
  let q' := Is [yesOrNo] q in
  (answer (Ask fuel q' prompt w), q').

Definition Prompter_Confirm (fuel : nat) (prompt : string) (w : World)
  : Outcome (bool * option error) :=
  fst (Confirm fuel newQuestion prompt w).

End Confirm.

(** ** Worlds to run the protocol in *)

Definition nl : string := String LF EmptyString.

(** An in-memory stream that ends with [EOF], such as a [bytes.Buffer]. *)
Definition buffer (s : string) : Reader :=
  {| pending := s; ending := EOF; Fd := None |}.

Definition no_term : Term := {| ttys := []; typed := [] |}.

Definition world (p : Prompter) (c : Context) : World :=
  {| prompter := p; term := no_term; ctx := c; trace := [] |}.

(** [%q] on a string of printable ASCII without quotes or backslashes. *)
Definition quote_plain (s : string) : string :=
  String "034"%char s ++ String "034"%char EmptyString.

(** Append events to the log. *)
Definition logs (evs : list Event) (w : World) : World :=
  {| prompter := prompter w; term := term w; ctx := ctx w;
     trace := trace w ++ evs |}.

(** The calls of the validators with indices [i], ..., [i + k - 1]. *)
Definition calls (i k : nat) (input : string) : list Event :=
  map (fun j => Validate j input) (seq i k).

(** The world in which the goroutine of [readInput] has been launched under
    the prompt and has left the reader at [r'], the context moving on to
    [c']. *)
Definition after_read (prompt : string) (c' : Context) (r' : Reader)
           (w : World) : World :=
  set_reader r' (set_ctx c' (log Go_scanLine (Fprint [prompt; " "] w))).

(** The next [ReadString] runs into the end of the input. *)
Definition at_end_of_input (r : Reader) : Prop :=
  cut LF (pending r) = None /\ Is_EOF (ending r) = true.

(** [resolve] hands [input] to the validators. *)
Definition validated (q : Question) (input : string) : bool :=
  negb (input =? EmptyString)
  || ((defaultTo q =? EmptyString) && optional q).

Definition accepts (input : string) (v : validator) : Prop := v input = None.

(** Validators of the test suite and of the examples. *)
Definition validName (s : string) : option error :=
  if (String.length s <? 3)%nat
  then Some (Errorf ("'" ++ s ++ "' is too short"))
  else None.

Definition reject (msg : string) : validator := fun _ => Some (Errorf msg).

Definition accept : validator := fun _ => None.

(** The reading of the end of the input as an empty value: without default
    and not optional, the pass goes back to [retry]. *)
Definition end_of_input_retries : Prop :=
  forall q prompt w c',
    defaultTo q = EmptyString -> optional q = false ->
    race (ctx w) = ReadFirst c' ->
    at_end_of_input (reader (prompter w)) ->
    exists w', Ask_pass q prompt w = Retry w'.

(** Everything but the writer and the log is as in [w0]. *)
Definition stands_as (w0 w : World) : Prop :=
  reader (prompter w) = reader (prompter w0) /\
  fd (prompter w) = fd (prompter w0) /\
  term w = term w0 /\ ctx w = ctx w0.

(** [t] is [s] with more written after it. *)
Definition extends (s t : string) : Prop := exists more, t = s ++ more.

(** A call of a validator on the empty string is met only in a question
    that is optional and has no default. *)
Definition empty_call_allowed (q : Question) (ev : Event) : Prop :=
  match ev with
  | Validate _ input =>
      input = EmptyString -> defaultTo q = EmptyString /\ optional q = true
  | _ => True
  end.

(** The log of [o] is the log of [w] followed by events that satisfy [P]. *)
Definition logged {A} (P : Event -> Prop) (w : World) (o : Outcome A) : Prop :=
  exists evs, trace (world_of o) = (trace w ++ evs)%list /\ Forall P evs.

(** The invariant in its unconditional form: no call of [Ask] ever logs a
    validator called on the empty string. *)
Definition never_validates_empty : Prop :=
  forall fuel q prompt w i,
    trace w = [] ->
    ~ In (Validate i EmptyString) (trace (world_of (Ask fuel q prompt w))).

(** The upper-case partner of a lower-case letter. *)
Definition upper (d : ascii) : ascii := ascii_of_nat (nat_of_ascii d - 32).

(** All spellings of a lower-case token, letter by letter in either case. *)
Fixpoint casings (t : string) : list string :=
  match t with
  | EmptyString => [EmptyString]
  | String d rest =>
      flat_map (fun u => [String d u; String (upper d) u]) (casings rest)
  end.

(** The answers the validator of [Confirm] lets through, and those among
    them that mean yes. *)
Definition yes_spellings : list string :=
  ["y"; "Y"; "yes"; "Yes"; "yEs"; "YEs"; "yeS"; "YeS"; "yES"; "YES"].

Definition no_spellings : list string :=
  ["n"; "N"; "no"; "No"; "nO"; "NO"].

(** The error a context is done with, [None] for one that is never done. *)
Definition cause_of (c : Context) : option error :=
  match c with
  | Background => None
  | WithCancel cause _ _ => Some cause
  end.

(** [e] is the failure of the stream behind the reader. *)
Definition read_failure (r : Reader) (e : error) : Prop :=
  e = ending r /\ Is_EOF e = false.

(** [e] is a failure of [term.ReadPassword]. *)
Definition term_failure (t : Term) (e : error) : Prop :=
  In (inl e) (typed t) \/ e = EOF.

(** The three kinds of error a call in [w] can return: the sentinel, the
    error of the context, and a failure of the input, which for a password
    may be one of the terminal. *)
Definition surfaces (password : bool) (w : World) (e : error) : Prop :=
  e = ErrRequired \/
  cause_of (ctx w) = Some e \/
  read_failure (reader (prompter w)) e \/
  (password = true /\ term_failure (term w) e).

(** The stream, the context and the terminal of [w] are those of [w0],
    further on. *)
Definition continues (w0 w : World) : Prop :=
  ending (reader (prompter w)) = ending (reader (prompter w0)) /\
  cause_of (ctx w) = cause_of (ctx w0) /\
  incl (typed (term w)) (typed (term w0)).

(** Two lists of validators that accept and reject the same inputs, with
    whatever errors. *)
Definition same_verdicts (vs vs' : list validator) : Prop :=
  Forall2 (fun v v' : validator => forall s, v s = None <-> v' s = None) vs vs'.

(** The world with what was written wiped out. *)
Definition unwritten (w : World) : World := set_writer EmptyString w.

(** Two outcomes that differ at most in what was written. *)
Definition same_answer {A} (o o' : Outcome A) : Prop :=
  match o, o' with
  | Return r w, Return r' w' => r = r' /\ unwritten w = unwritten w'
  | Retry w, Retry w' => unwritten w = unwritten w'
  | _, _ => False
  end.

(** ** Vocabulary of the further properties *)

(** Occurrences of [c] in [s]; with [LF], the complete lines of [s]. *)
Fixpoint count (c : ascii) (s : string) : nat :=
  match s with
  | EmptyString => 0
  | String d rest => (if Ascii.eqb d c then 1 else 0) + count c rest
  end.

(** [l] is one line with its terminator. *)
Definition is_line (l : string) : Prop := cut LF l = Some (l, EmptyString).

(** A line with nothing on it but its terminator. *)
Definition blank (l : string) : Prop :=
  is_line l /\ TrimRight l crlf = EmptyString.

(** [s'] is what remains of [s] after some of it was taken. *)
Definition remains (s s' : string) : Prop := exists taken, s = taken ++ s'.

(** The prompt and its space, [k] times. *)
Fixpoint prompts (k : nat) (prompt : string) : string :=
  match k with
  | 0 => EmptyString
  | S k' => (prompt ++ " ") ++ prompts k' prompt
  end.

(** The test of [scanPassword] for reading from the terminal. *)
Definition on_terminal (w : World) : bool :=
  (-1 <? fd (prompter w))%Z && IsTerminal (term w) (fd (prompter w)).

(** What a call returned, if it did. *)
Definition result_of {A} (o : Outcome A) : option A :=
  match o with
  | Return r _ => Some r
  | Retry _ => None
  end.

(** What is left to read in [w]: complete lines of the stream and entries
    of the terminal. *)
Definition left_to_read (w : World) : nat :=
  count LF (pending (reader (prompter w))) + length (typed (term w)).

(** The reads a context still lets complete. *)
Definition reads_left (c : Context) : nat :=
  match c with
  | Background => 0
  | WithCancel _ n _ => n
  end.

(** The world after a read of [readPassword] under the prompt. *)
Definition after_password (prompt : string) (c' : Context) (r' : Reader)
           (t' : Term) (w : World) : World :=
  set_term t' (set_reader r' (set_ctx c'
    (log Go_scanPassword (Fprint [prompt; " "] w)))).

(** * Properties *)

(** Case analysis on the scrutinee of a [match]. *)
Ltac break_match :=
  match goal with
  | |- context [match ?x with _ => _ end] => destruct x eqn:?
  | H : context [match ?x with _ => _ end] |- _ => destruct x eqn:?
  end.


(** ** The loop *)

Lemma loop_more {A} (pass : World -> Outcome A) (n k : nat) (w w' : World) (r : A) :
  loop pass n w = Return r w' -> loop pass (n + k) w = Return r w'.
Proof.
  revert w. induction n as [|n IH]; intros w; cbn.
  - discriminate.
  - destruct (pass w) as [r0 w0|w0]; [trivial | apply IH].
Qed.

(** An invariant of the passes holds wherever the loop stands, and what
    every returning pass establishes holds of the loop's result. *)
Lemma loop_inv {A} (pass : World -> Outcome A)
      (P : World -> Prop) (Q : A -> World -> Prop) :
  (forall w w', P w -> pass w = Retry w' -> P w') ->
  (forall w r w', P w -> pass w = Return r w' -> Q r w') ->
  forall fuel w, P w ->
    match loop pass fuel w with
    | Return r w' => Q r w'
    | Retry w' => P w'
    end.
Proof.
  intros Hretry Hreturn. induction fuel as [|fuel IH]; intros w Hw; cbn.
  - exact Hw.
  - destruct (pass w) as [r w'|w'] eqn:E.
    + eapply Hreturn; eauto.
    + apply IH. eapply Hretry; eauto.
Qed.

Lemma loop_return {A} (pass : World -> Outcome A) (Q : A -> World -> Prop) :
  (forall w r w', pass w = Return r w' -> Q r w') ->
  forall fuel w r w', loop pass fuel w = Return r w' -> Q r w'.
Proof.
  intros Hreturn fuel w r w' H.
  pose proof (loop_inv pass (fun _ => True) Q (fun _ _ _ _ => I)
                (fun w0 r0 w1 _ => Hreturn w0 r0 w1) fuel w I) as L.
  now rewrite H in L.
Qed.

(** ** The validator loop *)

Lemma logs_nil w : logs [] w = w.
Proof. destruct w; unfold logs; cbn. now rewrite app_nil_r. Qed.

Lemma log_logs e evs w : logs evs (log e w) = logs (e :: evs) w.
Proof. unfold logs, log; cbn. now rewrite <- app_assoc. Qed.

Lemma validate_pass vs : forall i input w,
  Forall (fun v : validator => v input = None) vs ->
  validate vs i input w = (None, logs (calls i (length vs) input) w).
Proof.
  induction vs as [|v vs IH]; intros i input w H; cbn.
  - now rewrite logs_nil.
  - inversion H as [|? ? Hv Hvs]; subst. rewrite Hv, IH by assumption.
    now rewrite log_logs.
Qed.

Lemma validate_fail (pre : list validator) :
  forall (v : validator) (post : list validator) i input w err,
  Forall (fun u : validator => u input = None) pre ->
  v input = Some err ->
  validate (pre ++ v :: post) i input w
  = (Some err, logs (calls i (S (length pre)) input) w).
Proof.
  induction pre as [|u pre IH]; intros v post i input w err H Hv; cbn.
  - rewrite Hv. now rewrite <- (log_logs _ []), logs_nil.
  - inversion H as [|? ? Hu Hpre]; subst. rewrite Hu.
    rewrite (IH _ _ _ _ _ _ Hpre Hv). now rewrite log_logs.
Qed.

(** Every list of validators either accepts an input as a whole or splits
    at its first rejecting member. *)
Lemma validators_split (vs : list validator) (input : string) :
  Forall (fun v : validator => v input = None) vs \/
  exists pre v post err,
    vs = (pre ++ v :: post)%list /\
    Forall (fun u : validator => u input = None) pre /\
    v input = Some err.
Proof.
  induction vs as [|v vs IH].
  - left; constructor.
  - destruct (v input) as [err|] eqn:Hv.
    + right. exists [], v, vs, err. repeat split; auto.
    + destruct IH as [Hall | (pre & u & post & err & -> & Hpre & Hu)].
      * left; constructor; assumption.
      * right. exists (v :: pre), u, post, err. repeat split; auto.
Qed.

Lemma validate_shape vs i input w :
  exists k, k <= length vs /\ (vs <> [] -> 1 <= k) /\
    snd (validate vs i input w) = logs (calls i k input) w.
Proof.
  destruct (validators_split vs input)
    as [Hall | (pre & v & post & err & -> & Hpre & Hv)].
  - exists (length vs). split; [lia|]. split.
    + destruct vs; [congruence | cbn; lia].
    + now rewrite validate_pass.
  - exists (S (length pre)). split; [|split].
    + rewrite length_app; cbn; lia.
    + lia.
    + now rewrite (validate_fail pre v post i input w err).
Qed.

(** ** What a pass can return *)

(** [resolve] has no [return] with an error. *)
Lemma resolve_no_error q input w v err w' :
  resolve q input w <> Return (v, Some err) w'.
Proof.
  unfold resolve. repeat break_match; discriminate.
Qed.

Lemma Ask_pass_error q prompt w v err w' :
  Ask_pass q prompt w = Return (v, Some err) w' -> v = EmptyString.
Proof.
  unfold Ask_pass. destruct (readInput q _) as [[input [e|]] w2]; intros H.
  - now inversion H.
  - now apply resolve_no_error in H.
Qed.

Lemma Password_pass_error q prompt w v err w' :
  Password_pass q prompt w = Return (v, Some err) w' -> v = EmptyString.
Proof.
  unfold Password_pass. destruct (readPassword q _) as [[input [e|]] w2]; intros H.
  - now inversion H.
  - now apply resolve_no_error in H.
Qed.

Lemma Ask_error fuel q prompt w v err w' :
  Ask fuel q prompt w = Return (v, Some err) w' -> v = EmptyString.
Proof.
  unfold Ask. intros H.
  refine (loop_return (Ask_pass q prompt)
            (fun r _ => forall e, snd r = Some e -> fst r = EmptyString)
            _ fuel w _ _ H err eq_refl).
  intros w0 [v0 e0] w1 Hp e He. cbn in *; subst e0.
  eapply Ask_pass_error; eauto.
Qed.

Lemma Password_error fuel q prompt w v err w' :
  Password fuel q prompt w = Return (v, Some err) w' -> v = EmptyString.
Proof.
  unfold Password. intros H.
  refine (loop_return (Password_pass q prompt)
            (fun r _ => forall e, snd r = Some e -> fst r = EmptyString)
            _ fuel w _ _ H err eq_refl).
  intros w0 [v0 e0] w1 Hp e He. cbn in *; subst e0.
  eapply Password_pass_error; eauto.
Qed.

Lemma answer_error o b err w' :
  answer o = Return (b, Some err) w' -> b = false.
Proof.
  destruct o as [[input [e|]] w|w]; cbn; intros H; now inversion H.
Qed.

(** ** One read *)

Lemma scanLine_line q r line rest :
  cut LF (pending r) = Some (line, rest) ->
  scanLine q r = (OnInput (TrimRight line crlf), advance rest r).
Proof. unfold scanLine, ReadString. now intros ->. Qed.

Lemma scanLine_failure q r :
  cut LF (pending r) = None -> Is_EOF (ending r) = false ->
  scanLine q r = (OnError (ending r), advance EmptyString r).
Proof. unfold scanLine, ReadString. now intros -> ->. Qed.

Lemma scanLine_end q r :
  at_end_of_input r ->
  scanLine q r =
  (if negb (defaultTo q =? EmptyString) then OnInput (defaultTo q)
   else if negb (optional q) then OnError ErrRequired
   else OnInput (TrimRight (pending r) crlf),
   advance EmptyString r).
Proof.
  unfold scanLine, ReadString. intros [-> ->]; cbn.
  now destruct (negb (defaultTo q =? EmptyString)), (negb (optional q)).
Qed.

Lemma race_live c c' : race c = ReadFirst c' -> ctx_Err c = None.
Proof. now destruct c as [|cause [|n] []]. Qed.

(** A pass whose read completes. *)
Lemma Ask_pass_read q prompt w c' :
  race (ctx w) = ReadFirst c' ->
  Ask_pass q prompt w =
  match scanLine q (reader (prompter w)) with
  | (OnInput input, r') => resolve q input (after_read prompt c' r' w)
  | (OnError err, r') =>
      Return (EmptyString, Some err) (after_read prompt c' r' w)
  end.
Proof.
  intros H. unfold Ask_pass, readInput.
  change (ctx (Fprint [prompt; " "] w)) with (ctx w).
  rewrite (race_live _ _ H).
  change (ctx (log Go_scanLine (Fprint [prompt; " "] w))) with (ctx w).
  rewrite H.
  change (reader (prompter (log Go_scanLine (Fprint [prompt; " "] w))))
    with (reader (prompter w)).
  now destruct (scanLine q (reader (prompter w))) as [[input|err] r'].
Qed.

(** What [resolve] does with an input it hands to the validators. *)
Lemma resolve_validated q input w :
  validated q input = true ->
  resolve q input w =
  match validate (validators q) 0 input w with
  | (Some err, w1) => Retry (Fprintln (Error err) w1)
  | (None, w1) => Return (input, None) w1
  end.
Proof.
  unfold validated, resolve.
  destruct (input =? EmptyString), (defaultTo q =? EmptyString), (optional q);
    cbn; intros H; try discriminate; reflexivity.
Qed.

Lemma resolve_not_validated q input w :
  validated q input = false ->
  resolve q input w =
  if negb (defaultTo q =? EmptyString) then Return (defaultTo q, None) w
  else Retry w.
Proof.
  unfold validated, resolve.
  destruct (input =? EmptyString), (defaultTo q =? EmptyString), (optional q);
    cbn; intros H; try discriminate; reflexivity.
Qed.

(** ** What is written *)

Lemma append_assoc (a b c : string) : (a ++ b) ++ c = a ++ b ++ c.
Proof. induction a as [|x a IH]; cbn; [reflexivity | now rewrite IH]. Qed.

Lemma extends_refl s : extends s s.
Proof.
  exists EmptyString. induction s as [|x s IH]; cbn; [reflexivity|].
  now rewrite <- IH.
Qed.

Lemma extends_trans a b c : extends a b -> extends b c -> extends a c.
Proof.
  intros [m ->] [n ->]. exists (m ++ n). apply append_assoc.
Qed.

Lemma extends_app a b : extends a (a ++ b).
Proof. now exists b. Qed.

Lemma readInput_writer q w :
  writer (prompter (snd (readInput q w))) = writer (prompter w).
Proof.
  unfold readInput, receive. repeat break_match; reflexivity.
Qed.

Lemma readPassword_writer q w :
  writer (prompter (snd (readPassword q w))) = writer (prompter w).
Proof.
  unfold readPassword, receive. repeat break_match; reflexivity.
Qed.

Lemma validate_writer vs i input w :
  writer (prompter (snd (validate vs i input w))) = writer (prompter w).
Proof.
  destruct (validate_shape vs i input w) as (k & _ & _ & ->). reflexivity.
Qed.

Lemma resolve_writes q input w :
  extends (writer (prompter w)) (writer (prompter (world_of (resolve q input w)))).
Proof.
  unfold resolve.
  pose proof (validate_writer (validators q) 0 input w) as Hv.
  destruct (validate (validators q) 0 input w) as [[err|] w1]; cbn in Hv;
    repeat break_match; cbn; rewrite ?Hv;
    first [apply extends_refl | apply extends_app].
Qed.

Lemma Ask_pass_writes q prompt w :
  extends (writer (prompter w) ++ prompt ++ " ")
          (writer (prompter (world_of (Ask_pass q prompt w)))).
Proof.
  unfold Ask_pass.
  pose proof (readInput_writer q (Fprint [prompt; " "] w)) as Hr.
  destruct (readInput q (Fprint [prompt; " "] w)) as [[input [err|]] w2];
    cbn in Hr.
  - cbn. rewrite Hr. apply extends_refl.
  - eapply extends_trans; [|apply resolve_writes]. rewrite Hr.
    apply extends_refl.
Qed.

Lemma loop_writes {A} (pass : World -> Outcome A) :
  (forall w, extends (writer (prompter w))
                     (writer (prompter (world_of (pass w))))) ->
  forall fuel w, extends (writer (prompter w))
                         (writer (prompter (world_of (loop pass fuel w)))).
Proof.
  intros Hpass. induction fuel as [|fuel IH]; intros w; cbn.
  - apply extends_refl.
  - specialize (Hpass w). destruct (pass w) as [r w'|w']; cbn in *.
    + exact Hpass.
    + eapply extends_trans; [exact Hpass | apply IH].
Qed.

(** Whatever comes of it, a call of [Ask] that makes a pass starts by
    writing the prompt and a space. *)
Lemma Ask_writes fuel q prompt w :
  extends (writer (prompter w) ++ prompt ++ " ")
          (writer (prompter (world_of (Ask (S fuel) q prompt w)))).
Proof.
  unfold Ask; cbn [loop].
  pose proof (Ask_pass_writes q prompt w) as Hp.
  destruct (Ask_pass q prompt w) as [r w'|w']; cbn in *; [exact Hp|].
  eapply extends_trans; [exact Hp|]. apply loop_writes.
  intros w0. eapply extends_trans; [|apply Ask_pass_writes].
  apply extends_app.
Qed.

(** ** What is logged *)

Lemma logged_trans {A B} (P : Event -> Prop) w (o : Outcome A) (o' : Outcome B) :
  logged P w o -> logged P (world_of o) o' -> logged P w o'.
Proof.
  intros (evs & H1 & F1) (evs' & H2 & F2). exists (evs ++ evs')%list. split.
  - now rewrite H2, H1, app_assoc.
  - apply Forall_app; now split.
Qed.

Lemma logged_here {A} (P : Event -> Prop) w (o : Outcome A) :
  trace (world_of o) = trace w -> logged P w o.
Proof.
  intros H. exists []. split; [now rewrite app_nil_r | constructor].
Qed.

Lemma loop_logged {A} (P : Event -> Prop) (pass : World -> Outcome A) :
  (forall w, logged P w (pass w)) ->
  forall fuel w, logged P w (loop pass fuel w).
Proof.
  intros Hpass. induction fuel as [|fuel IH]; intros w; cbn.
  - now apply logged_here.
  - specialize (Hpass w). destruct (pass w) as [r w'|w'] eqn:E.
    + exact Hpass.
    + eapply (logged_trans P w (Retry (A := A) w')); [exact Hpass | apply IH].
Qed.

Lemma calls_allowed q i k input :
  (1 <= k -> validated q input = true) ->
  Forall (empty_call_allowed q) (calls i k input).
Proof.
  intros H. unfold calls. apply Forall_forall. intros ev Hin.
  apply in_map_iff in Hin as (j & <- & Hj). apply in_seq in Hj.
  cbn. intros ->. assert (Hv : validated q EmptyString = true) by (apply H; lia).
  unfold validated in Hv; cbn in Hv.
  apply andb_true_iff in Hv as [Hd Ho]. apply String.eqb_eq in Hd. now split.
Qed.

Lemma resolve_logged q input w :
  logged (empty_call_allowed q) w (resolve q input w).
Proof.
  destruct (validated q input) eqn:Hv.
  - rewrite resolve_validated by assumption.
    destruct (validate_shape (validators q) 0 input w) as (k & _ & _ & Hk).
    exists (calls 0 k input). split.
    + destruct (validate (validators q) 0 input w) as [[err|] w1];
        cbn in Hk; subst w1; reflexivity.
    + now apply calls_allowed.
  - rewrite resolve_not_validated by assumption.
    apply logged_here. now destruct (negb _).
Qed.

Lemma readInput_logged q w :
  exists evs, trace (snd (readInput q w)) = (trace w ++ evs)%list /\
              (evs = [] \/ evs = [Go_scanLine]).
Proof.
  unfold readInput, receive.
  repeat break_match; cbn;
    first [ exists []; split; [now rewrite app_nil_r | now left]
          | exists [Go_scanLine]; split; [reflexivity | now right] ].
Qed.

Lemma readPassword_logged q w :
  exists evs, trace (snd (readPassword q w)) = (trace w ++ evs)%list /\
              (evs = [] \/ evs = [Go_scanPassword]).
Proof.
  unfold readPassword, receive.
  repeat break_match; cbn;
    first [ exists []; split; [now rewrite app_nil_r | now left]
          | exists [Go_scanPassword]; split; [reflexivity | now right] ].
Qed.

Lemma Ask_pass_logged q prompt w :
  logged (empty_call_allowed q) w (Ask_pass q prompt w).
Proof.
  unfold Ask_pass.
  destruct (readInput_logged q (Fprint [prompt; " "] w)) as (evs & Ht & Hevs).
  assert (F : Forall (empty_call_allowed q) evs)
    by (destruct Hevs as [-> | ->]; repeat constructor).
  destruct (readInput q (Fprint [prompt; " "] w)) as [[input [err|]] w2];
    cbn in Ht.
  - exists evs. now split.
  - apply (logged_trans _ w (Retry (A := unit) w2)).
    + exists evs. now split.
    + apply resolve_logged.
Qed.

Lemma Password_pass_logged q prompt w :
  logged (empty_call_allowed q) w (Password_pass q prompt w).
Proof.
  unfold Password_pass.
  destruct (readPassword_logged q (Fprint [prompt; " "] w)) as (evs & Ht & Hevs).
  assert (F : Forall (empty_call_allowed q) evs)
    by (destruct Hevs as [-> | ->]; repeat constructor).
  destruct (readPassword q (Fprint [prompt; " "] w)) as [[input [err|]] w2];
    cbn in Ht.
  - exists evs. now split.
  - apply (logged_trans _ w (Retry (A := unit) (Fprintln EmptyString w2))).
    + exists evs. now split.
    + apply resolve_logged.
Qed.

Lemma world_of_answer o : world_of (answer o) = world_of o.
Proof. now destruct o as [[input [err|]] w|w]. Qed.

(** ** Lower case *)

Lemma lower_inv c d : lower c = d -> c = d \/ c = upper d.
Proof.
  unfold lower, upper. intros <-.
  destruct ((65 <=? nat_of_ascii c) && (nat_of_ascii c <=? 90))%nat eqn:E.
  - right. apply andb_true_iff in E as [Hlo Hhi].
    apply Nat.leb_le in Hlo, Hhi.
    rewrite nat_ascii_embedding by lia.
    replace (nat_of_ascii c + 32 - 32) with (nat_of_ascii c) by lia.
    now rewrite ascii_nat_embedding.
  - now left.
Qed.

Lemma ToLower_inv s : forall t, ToLower s = t -> In s (casings t).
Proof.
  induction s as [|c s IH]; intros t <-; cbn.
  - now left.
  - apply in_flat_map. exists s. split; [now apply IH|].
    destruct (lower_inv c (lower c) eq_refl) as [H | H]; rewrite <- H; cbn; auto.
Qed.

Lemma ToLower_spellings s (l : list string) :
  forallb (fun t => existsb (String.eqb (ToLower t)) l) (List.concat (map casings l))
  = true ->
  (existsb (String.eqb (ToLower s)) l = true
   <-> In s (List.concat (map casings l))).
Proof.
  intros Hall. split.
  - intros H. apply existsb_exists in H as (t & Ht & E).
    apply String.eqb_eq in E. apply in_concat. exists (casings t). split.
    + now apply in_map.
    + now apply ToLower_inv.
  - intros H. rewrite forallb_forall in Hall. now apply Hall.
Qed.

Lemma says_yes s :
  (ToLower s =? "y") || (ToLower s =? "yes") = true <-> In s yes_spellings.
Proof.
  pose proof (ToLower_spellings s ["y"; "yes"] eq_refl) as H.
  cbn [existsb] in H. rewrite orb_false_r in H. exact H.
Qed.

Lemma says_no s :
  (ToLower s =? "n") || (ToLower s =? "no") = true <-> In s no_spellings.
Proof.
  pose proof (ToLower_spellings s ["n"; "no"] eq_refl) as H.
  cbn [existsb] in H. rewrite orb_false_r in H. exact H.
Qed.

Lemma yesOrNo_accepts Quote s :
  yesOrNo Quote s = None <-> In s (yes_spellings ++ no_spellings)%list.
Proof.
  unfold yesOrNo. rewrite in_app_iff, <- says_yes, <- says_no.
  destruct ((ToLower s =? "y") || (ToLower s =? "yes"));
    destruct ((ToLower s =? "n") || (ToLower s =? "no")); split; intros H;
    try reflexivity; try discriminate; auto.
  destruct H; discriminate.
Qed.

Lemma yesOrNo_rejects Quote s :
  yesOrNo Quote s <> None ->
  yesOrNo Quote s
  = Some (Errorf ("invalid value " ++ Quote s ++ ", must enter yes or no")).
Proof.
  unfold yesOrNo.
  destruct ((ToLower s =? "y") || (ToLower s =? "yes"));
    destruct ((ToLower s =? "n") || (ToLower s =? "no")); congruence.
Qed.

Lemma isYes_true s :
  isYes s = true
  <-> ToLower s = "y" \/ ToLower s = "yes" \/ ToLower s = "true".
Proof.
  unfold isYes. rewrite !orb_true_iff, !String.eqb_eq. tauto.
Qed.

(** ** Where errors come from *)

Lemma continues_refl w : continues w w.
Proof. repeat split. apply incl_refl. Qed.

Lemma continues_trans a b c : continues a b -> continues b c -> continues a c.
Proof.
  intros (E1 & C1 & T1) (E2 & C2 & T2). repeat split; try congruence.
  eapply incl_tran; eauto.
Qed.

Lemma surfaces_continues b w0 w e :
  continues w0 w -> surfaces b w e -> surfaces b w0 e.
Proof.
  intros (E & C & T) [H | [H | [[H1 H2] | [Hb [H | H]]]]].
  - now left.
  - right; left. congruence.
  - right; right; left. split; congruence.
  - right; right; right. split; [exact Hb|]. left. now apply T.
  - right; right; right. split; [exact Hb|]. now right.
Qed.

Lemma race_cause c :
  match race c with
  | ReadFirst c' => cause_of c' = cause_of c
  | DoneFirst e c' => cause_of c' = cause_of c /\ cause_of c = Some e
  end.
Proof. destruct c as [|cause [|n] b]; cbn; auto. Qed.

Lemma ctx_Err_cause c e : ctx_Err c = Some e -> cause_of c = Some e.
Proof. destruct c as [|cause [|n] []]; cbn; congruence. Qed.

Lemma scanLine_cases q r :
  (exists line rest,
      scanLine q r = (OnInput (TrimRight line crlf), advance rest r)) \/
  (exists input, scanLine q r = (OnInput input, advance EmptyString r)) \/
  scanLine q r = (OnError ErrRequired, advance EmptyString r) \/
  (scanLine q r = (OnError (ending r), advance EmptyString r) /\
   Is_EOF (ending r) = false).
Proof.
  destruct (cut LF (pending r)) as [[line rest]|] eqn:Hcut.
  - left. exists line, rest. now apply scanLine_line.
  - right. destruct (Is_EOF (ending r)) eqn:Hend.
    + rewrite (scanLine_end q r (conj Hcut Hend)).
      destruct (negb (defaultTo q =? EmptyString)); [left; eauto|].
      destruct (negb (optional q)); [right; now left | left; eauto].
    + right; right. split; [now apply scanLine_failure | reflexivity].
Qed.

Lemma scanLine_ending q r : ending (snd (scanLine q r)) = ending r.
Proof.
  destruct (scanLine_cases q r)
    as [(l & t & ->) | [(i & ->) | [-> | [-> _]]]]; reflexivity.
Qed.

Lemma scanLine_error q r e :
  fst (scanLine q r) = OnError e -> e = ErrRequired \/ read_failure r e.
Proof.
  destruct (scanLine_cases q r)
    as [(l & t & ->) | [(i & ->) | [-> | [-> Hend]]]]; cbn; intros H;
    inversion H; subst; [now left|]. right. now split.
Qed.

Lemma readInput_continues q w : continues w (snd (readInput q w)).
Proof.
  unfold readInput.
  destruct (ctx_Err (ctx w)); [apply continues_refl|].
  change (ctx (log Go_scanLine w)) with (ctx w).
  change (reader (prompter (log Go_scanLine w))) with (reader (prompter w)).
  pose proof (race_cause (ctx w)) as Hc.
  pose proof (scanLine_ending q (reader (prompter w))) as He.
  destruct (scanLine q (reader (prompter w))) as [[input|err] r'];
    destruct (race (ctx w)) as [c'|e c'];
    cbn in *; repeat split; try tauto; apply incl_refl.
Qed.

Lemma readInput_surfaces q w v e w' :
  readInput q w = ((v, Some e), w') -> surfaces false w e.
Proof.
  unfold readInput.
  destruct (ctx_Err (ctx w)) as [e0|] eqn:E.
  - intros H; inversion H; subst. right; left. now apply ctx_Err_cause.
  - change (ctx (log Go_scanLine w)) with (ctx w).
    change (reader (prompter (log Go_scanLine w))) with (reader (prompter w)).
    pose proof (race_cause (ctx w)) as Hc.
    pose proof (scanLine_error q (reader (prompter w))) as He.
    destruct (scanLine q (reader (prompter w))) as [m r'].
    destruct (race (ctx w)) as [c'|e0 c'].
    + destruct m as [input|err]; cbn; intros H; inversion H; subst.
      destruct (He e eq_refl) as [-> | Hf]; [now left|].
      right; right; now left.
    + intros H; inversion H; subst. right; left. tauto.
Qed.

Lemma ReadPassword_spec t :
  incl (typed (snd (ReadPassword t))) (typed t) /\
  forall e, snd (fst (ReadPassword t)) = Some e -> term_failure t e.
Proof.
  unfold ReadPassword, term_failure.
  destruct (typed t) as [|[e0|s] rest] eqn:E; cbn.
  - rewrite E. split; [apply incl_refl|]. intros e H; inversion H; auto.
  - split; [apply incl_tl, incl_refl|].
    intros e H; inversion H; subst; auto.
  - split; [apply incl_tl, incl_refl|]. discriminate.
Qed.

Lemma scanPassword_spec q p t :
  let '(m, r', t') := scanPassword q p t in
  ending r' = ending (reader p) /\ incl (typed t') (typed t) /\
  forall e, m = OnError e ->
            e = ErrRequired \/ read_failure (reader p) e \/ term_failure t e.
Proof.
  unfold scanPassword.
  destruct ((-1 <? fd p)%Z && IsTerminal t (fd p)).
  - destruct (ReadPassword_spec t) as [Hi He].
    destruct (ReadPassword t) as [[pass [e0|]] t']; cbn in *.
    + repeat split; auto. intros e H; inversion H; subst. right; right.
      now apply He.
    + repeat split; auto. discriminate.
  - pose proof (scanLine_ending q (reader p)) as Hend.
    pose proof (scanLine_error q (reader p)) as Herr.
    destruct (scanLine q (reader p)) as [m r']; cbn in *.
    repeat split; auto; [apply incl_refl|].
    intros e ->. destruct (Herr e eq_refl); auto.
Qed.

Lemma readPassword_continues q w : continues w (snd (readPassword q w)).
Proof.
  unfold readPassword.
  destruct (ctx_Err (ctx w)); [apply continues_refl|].
  change (ctx (log Go_scanPassword w)) with (ctx w).
  pose proof (race_cause (ctx w)) as Hc.
  pose proof (scanPassword_spec q (prompter w) (term w)) as Hs.
  change (prompter (log Go_scanPassword w)) with (prompter w).
  change (term (log Go_scanPassword w)) with (term w).
  destruct (scanPassword q (prompter w) (term w)) as [[m r'] t'].
  destruct Hs as (He & Ht & _).
  destruct (race (ctx w)) as [c'|e c']; [destruct m as [input|err]|];
    cbn; repeat split; auto; tauto.
Qed.

Lemma readPassword_surfaces q w v e w' :
  readPassword q w = ((v, Some e), w') -> surfaces true w e.
Proof.
  unfold readPassword.
  destruct (ctx_Err (ctx w)) as [e0|] eqn:E.
  - intros H; inversion H; subst. right; left. now apply ctx_Err_cause.
  - change (ctx (log Go_scanPassword w)) with (ctx w).
    change (prompter (log Go_scanPassword w)) with (prompter w).
    change (term (log Go_scanPassword w)) with (term w).
    pose proof (race_cause (ctx w)) as Hc.
    pose proof (scanPassword_spec q (prompter w) (term w)) as Hs.
    destruct (scanPassword q (prompter w) (term w)) as [[m r'] t'].
    destruct Hs as (_ & _ & He).
    destruct (race (ctx w)) as [c'|e0 c'].
    + destruct m as [input|err]; cbn; intros H; inversion H; subst.
      destruct (He e eq_refl) as [-> | [Hf | Hf]]; [now left| |];
        right; right; [now left | right; now split].
    + intros H; inversion H; subst. right; left. tauto.
Qed.

Lemma resolve_continues q input w : continues w (world_of (resolve q input w)).
Proof.
  unfold resolve.
  destruct (validate_shape (validators q) 0 input w) as (k & _ & _ & Hk).
  destruct (validate (validators q) 0 input w) as [[err|] w1]; cbn in Hk;
    subst w1; repeat break_match; unfold continues; cbn;
    (split; [reflexivity | split; [reflexivity | apply incl_refl]]).
Qed.

Lemma Fprint_continues ops w : continues w (Fprint ops w).
Proof. unfold continues; cbn. repeat split. apply incl_refl. Qed.

Lemma Ask_pass_continues q prompt w :
  continues w (world_of (Ask_pass q prompt w)).
Proof.
  unfold Ask_pass.
  pose proof (readInput_continues q (Fprint [prompt; " "] w)) as Hr.
  destruct (readInput q (Fprint [prompt; " "] w)) as [[input [err|]] w2];
    cbn [snd] in Hr.
  - exact Hr.
  - eapply continues_trans; [exact Hr | apply resolve_continues].
Qed.

Lemma Password_pass_continues q prompt w :
  continues w (world_of (Password_pass q prompt w)).
Proof.
  unfold Password_pass.
  pose proof (readPassword_continues q (Fprint [prompt; " "] w)) as Hr.
  destruct (readPassword q (Fprint [prompt; " "] w)) as [[input [err|]] w2];
    cbn [snd] in Hr.
  - exact Hr.
  - eapply continues_trans; [exact Hr|].
    apply (resolve_continues q input (Fprintln EmptyString w2)).
Qed.

Lemma Ask_pass_surfaces q prompt w v e w' :
  Ask_pass q prompt w = Return (v, Some e) w' -> surfaces false w e.
Proof.
  unfold Ask_pass.
  destruct (readInput q (Fprint [prompt; " "] w)) as [[input [err|]] w2] eqn:Hr;
    intros H.
  - inversion H; subst. now apply readInput_surfaces in Hr.
  - now apply resolve_no_error in H.
Qed.

Lemma Password_pass_surfaces q prompt w v e w' :
  Password_pass q prompt w = Return (v, Some e) w' -> surfaces true w e.
Proof.
  unfold Password_pass.
  destruct (readPassword q (Fprint [prompt; " "] w))
    as [[input [err|]] w2] eqn:Hr; intros H.
  - inversion H; subst. now apply readPassword_surfaces in Hr.
  - now apply resolve_no_error in H.
Qed.

(** The errors of a loop are the errors of its passes. *)
Lemma loop_surfaces {A} b (pass : World -> Outcome (A * option error)) :
  (forall w, continues w (world_of (pass w))) ->
  (forall w v e w', pass w = Return (v, Some e) w' -> surfaces b w e) ->
  forall fuel w v e w',
    loop pass fuel w = Return (v, Some e) w' -> surfaces b w e.
Proof.
  intros Hcont Hsurf fuel w v e w' H.
  pose proof (loop_inv pass (continues w)
    (fun r _ => forall e, snd r = Some e -> surfaces b w e)) as L.
  lazymatch type of L with
  | ?P -> ?Q -> _ => assert (HP : P); [|assert (HQ : Q)]
  end.
  - intros w0 w1 Hw0 Hp. eapply continues_trans; [exact Hw0|].
    specialize (Hcont w0). now rewrite Hp in Hcont.
  - intros w0 [v0 e0] w1 Hw0 Hp e1 He. cbn in He; subst e0.
    eapply surfaces_continues; [exact Hw0|]. eapply Hsurf; eauto.
  - specialize (L HP HQ fuel w (continues_refl w)). rewrite H in L.
    now apply L.
Qed.

(** ** What the answer does not depend on *)

Lemma unwritten_inv w w' :
  unwritten w = unwritten w' ->
  exists s, w' = set_writer s w.
Proof.
  destruct w as [[wr rd f] t c tr], w' as [[wr' rd' f'] t' c' tr'].
  unfold unwritten, set_writer; cbn. intros H; inversion H; subst.
  now exists wr'.
Qed.

Lemma scanLine_ext q q' r :
  defaultTo q = defaultTo q' -> optional q = optional q' ->
  scanLine q r = scanLine q' r.
Proof. unfold scanLine. now intros -> ->. Qed.

Lemma scanPassword_ext q q' p p' t :
  defaultTo q = defaultTo q' -> optional q = optional q' ->
  reader p = reader p' -> fd p = fd p' ->
  scanPassword q p t = scanPassword q' p' t.
Proof.
  unfold scanPassword. intros Hd Ho -> ->.
  now rewrite (scanLine_ext q q' _ Hd Ho).
Qed.

Lemma readInput_unwritten q q' w w' :
  defaultTo q = defaultTo q' -> optional q = optional q' ->
  unwritten w = unwritten w' ->
  fst (readInput q w) = fst (readInput q' w') /\
  unwritten (snd (readInput q w)) = unwritten (snd (readInput q' w')).
Proof.
  intros Hd Ho H. apply unwritten_inv in H as [s ->].
  unfold readInput. cbn [ctx set_writer log prompter reader].
  rewrite (scanLine_ext q q' _ Hd Ho).
  destruct (ctx_Err (ctx w)); [now split|].
  destruct (scanLine q' (reader (prompter w))) as [[input|err] r'];
    destruct (race (ctx w)); now split.
Qed.

Lemma readPassword_unwritten q q' w w' :
  defaultTo q = defaultTo q' -> optional q = optional q' ->
  unwritten w = unwritten w' ->
  fst (readPassword q w) = fst (readPassword q' w') /\
  unwritten (snd (readPassword q w)) = unwritten (snd (readPassword q' w')).
Proof.
  intros Hd Ho H. apply unwritten_inv in H as [s ->].
  unfold readPassword. cbn [ctx set_writer log prompter term].
  rewrite (scanPassword_ext q q' (prompter w)
             {| writer := s; reader := reader (prompter w);
                fd := fd (prompter w) |} (term w) Hd Ho eq_refl eq_refl).
  destruct (ctx_Err (ctx w)); [now split|].
  destruct (scanPassword q' _ (term w)) as [[[input|err] r'] t'];
    destruct (race (ctx w)); now split.
Qed.

Lemma validate_verdicts vs vs' :
  same_verdicts vs vs' ->
  forall i input w w',
    unwritten w = unwritten w' ->
    (fst (validate vs i input w) = None
     <-> fst (validate vs' i input w') = None) /\
    unwritten (snd (validate vs i input w))
    = unwritten (snd (validate vs' i input w')).
Proof.
  induction 1 as [|v v' vs vs' Hv Hvs IH]; intros i input w w' Hw; cbn.
  - now split.
  - assert (Hlog : unwritten (log (Validate i input) w)
                   = unwritten (log (Validate i input) w')).
    { change (log (Validate i input) (unwritten w)
              = log (Validate i input) (unwritten w')). now rewrite Hw. }
    specialize (Hv input).
    destruct (v input) as [err|], (v' input) as [err'|]; cbn.
    + split; [split; discriminate | exact Hlog].
    + exfalso. destruct Hv as [_ Hv]. now specialize (Hv eq_refl).
    + exfalso. destruct Hv as [Hv _]. now specialize (Hv eq_refl).
    + now apply IH.
Qed.

Lemma resolve_verdicts q q' input w w' :
  defaultTo q = defaultTo q' -> optional q = optional q' ->
  same_verdicts (validators q) (validators q') ->
  unwritten w = unwritten w' ->
  same_answer (resolve q input w) (resolve q' input w').
Proof.
  intros Hd Ho Hvs Hw. unfold resolve. rewrite <- Hd, <- Ho.
  destruct (validate_verdicts _ _ Hvs 0 input w w' Hw) as [Hnone Hsnd].
  destruct (validate (validators q) 0 input w) as [[err|] w1],
           (validate (validators q') 0 input w') as [[err'|] w1'];
    cbn [fst snd] in *;
    try (exfalso; destruct Hnone as [H1 H2];
         first [now specialize (H1 eq_refl) | now specialize (H2 eq_refl)]);
    repeat break_match; cbn; auto.
Qed.

Lemma Ask_pass_verdicts q q' prompt w w' :
  defaultTo q = defaultTo q' -> optional q = optional q' ->
  same_verdicts (validators q) (validators q') ->
  unwritten w = unwritten w' ->
  same_answer (Ask_pass q prompt w) (Ask_pass q' prompt w').
Proof.
  intros Hd Ho Hvs Hw. unfold Ask_pass.
  destruct (readInput_unwritten q q' (Fprint [prompt; " "] w)
              (Fprint [prompt; " "] w') Hd Ho Hw) as [Hf Hs].
  destruct (readInput q _) as [[input [err|]] w2],
           (readInput q' _) as [[input' [err'|]] w2'];
    cbn [fst snd] in *; inversion Hf; subst; cbn; auto.
  now apply resolve_verdicts.
Qed.

Lemma Password_pass_verdicts q q' prompt w w' :
  defaultTo q = defaultTo q' -> optional q = optional q' ->
  same_verdicts (validators q) (validators q') ->
  unwritten w = unwritten w' ->
  same_answer (Password_pass q prompt w) (Password_pass q' prompt w').
Proof.
  intros Hd Ho Hvs Hw. unfold Password_pass.
  destruct (readPassword_unwritten q q' (Fprint [prompt; " "] w)
              (Fprint [prompt; " "] w') Hd Ho Hw) as [Hf Hs].
  destruct (readPassword q _) as [[input [err|]] w2],
           (readPassword q' _) as [[input' [err'|]] w2'];
    cbn [fst snd] in *; inversion Hf; subst; cbn; auto.
  now apply resolve_verdicts.
Qed.

Lemma loop_same_answer {A} (pass pass' : World -> Outcome A) :
  (forall w w', unwritten w = unwritten w' -> same_answer (pass w) (pass' w')) ->
  forall fuel w w',
    unwritten w = unwritten w' ->
    same_answer (loop pass fuel w) (loop pass' fuel w').
Proof.
  intros Hpass. induction fuel as [|fuel IH]; intros w w' Hw; cbn.
  - exact Hw.
  - specialize (Hpass w w' Hw).
    destruct (pass w) as [r w1|w1], (pass' w') as [r' w1'|w1']; cbn in Hpass;
      try contradiction.
    + exact Hpass.
    + now apply IH.
Qed.

Lemma answer_error_inv o b e w' :
  answer o = Return (b, Some e) w' -> exists v, o = Return (v, Some e) w'.
Proof.
  destruct o as [[input [err|]] w|w]; cbn; intros H; inversion H; subst.
  now exists input.
Qed.

(** A pass in which a validator rejects the input does not return: the
    message of the first validator to reject is written and the pass ends
    at [retry]. *)
Lemma Ask_pass_rejected q prompt input w w2 (pre : list validator)
      (v : validator) (post : list validator) err :
  readInput q (Fprint [prompt; " "] w) = ((input, None), w2) ->
  validated q input = true ->
  validators q = (pre ++ v :: post)%list ->
  Forall (accepts input) pre ->
  v input = Some err ->
  Ask_pass q prompt w
  = Retry (Fprintln (Error err) (logs (calls 0 (S (length pre)) input) w2)).
Proof.
  intros Hread Hval Hvs Hpre Hv. unfold Ask_pass. rewrite Hread.
  rewrite resolve_validated by exact Hval. rewrite Hvs.
  now rewrite (validate_fail pre v post 0 input w2 err Hpre Hv).
Qed.

Lemma Password_pass_writes q prompt w :
  extends (writer (prompter w) ++ prompt ++ " ")
          (writer (prompter (world_of (Password_pass q prompt w)))).
Proof.
  unfold Password_pass.
  pose proof (readPassword_writer q (Fprint [prompt; " "] w)) as Hr.
  destruct (readPassword q (Fprint [prompt; " "] w)) as [[input [err|]] w2];
    cbn in Hr.
  - cbn. rewrite Hr. apply extends_refl.
  - eapply extends_trans; [|apply resolve_writes]. cbn. rewrite Hr.
    apply extends_app.
Qed.

(** Whatever comes of it, a call of [Password] that makes a pass starts by
    writing the prompt and a space. *)
Lemma Password_writes fuel q prompt w :
  extends (writer (prompter w) ++ prompt ++ " ")
          (writer (prompter (world_of (Password (S fuel) q prompt w)))).
Proof.
  unfold Password; cbn [loop].
  pose proof (Password_pass_writes q prompt w) as Hp.
  destruct (Password_pass q prompt w) as [r w'|w']; cbn in *; [exact Hp|].
  eapply extends_trans; [exact Hp|]. apply loop_writes.
  intros w0. eapply extends_trans; [|apply Password_pass_writes].
  apply extends_app.
Qed.

Lemma Password_pass_rejected q prompt input w w2 (pre : list validator)
      (v : validator) (post : list validator) err :
  readPassword q (Fprint [prompt; " "] w) = ((input, None), w2) ->
  validated q input = true ->
  validators q = (pre ++ v :: post)%list ->
  Forall (accepts input) pre ->
  v input = Some err ->
  Password_pass q prompt w
  = Retry (Fprintln (Error err)
             (logs (calls 0 (S (length pre)) input)
                (Fprintln EmptyString w2))).
Proof.
  intros Hread Hval Hvs Hpre Hv. unfold Password_pass. rewrite Hread.
  rewrite resolve_validated by exact Hval. rewrite Hvs.
  now rewrite (validate_fail pre v post 0 input _ err Hpre Hv).
Qed.

Lemma validate_accepts vs i input w w' :
  validate vs i input w = (None, w') -> Forall (accepts input) vs.
Proof.
  destruct (validators_split vs input)
    as [Hall | (pre & v & post & err & -> & Hpre & Hv)]; [now intros _|].
  now rewrite (validate_fail pre v post i input w err Hpre Hv).
Qed.

Lemma resolve_answer q input w v w' :
  resolve q input w = Return (v, None) w' ->
  (input = EmptyString /\ v = defaultTo q /\ defaultTo q <> EmptyString) \/
  (v = input /\ Forall (accepts v) (validators q) /\
   (v = EmptyString -> defaultTo q = EmptyString /\ optional q = true)).
Proof.
  unfold resolve.
  destruct (validate (validators q) 0 input w) as [[err|] w1] eqn:Hv.
  - destruct (input =? EmptyString) eqn:Hi; [|discriminate].
    destruct (defaultTo q =? EmptyString) eqn:Hd; cbn [negb].
    + destruct (negb (optional q)); discriminate.
    + intros H; inversion H; subst. left.
      apply String.eqb_eq in Hi. apply String.eqb_neq in Hd. auto.
  - apply validate_accepts in Hv.
    destruct (input =? EmptyString) eqn:Hi.
    + apply String.eqb_eq in Hi.
      destruct (defaultTo q =? EmptyString) eqn:Hd; cbn [negb].
      * destruct (optional q) eqn:Ho; cbn [negb]; [|discriminate].
        intros H; inversion H; subst. right.
        apply String.eqb_eq in Hd. auto.
      * intros H; inversion H; subst. left.
        apply String.eqb_neq in Hd. auto.
    + intros H; inversion H; subst. right.
      apply String.eqb_neq in Hi. repeat split; auto. contradiction.
Qed.

Lemma loop_returns_empty (pass : World -> Outcome (string * option error))
      (P : Prop) :
  (forall w w', pass w = Return (EmptyString, None) w' -> P) ->
  forall fuel w w', loop pass fuel w = Return (EmptyString, None) w' -> P.
Proof.
  intros Hpass fuel w w' H.
  exact (loop_return pass (fun r _ => r = (EmptyString, None) -> P)
           (fun w0 r w1 Hp Hr =>
              Hpass w0 w1 (eq_trans Hp (f_equal (fun x => Return x w1) Hr)))
           fuel w _ _ H eq_refl).
Qed.

Lemma resolve_returns_empty q input w w' :
  resolve q input w = Return (EmptyString, None) w' ->
  defaultTo q = EmptyString /\ optional q = true /\
  Forall (accepts EmptyString) (validators q).
Proof.
  intros H. apply resolve_answer in H as [(_ & Hv & Hd) | (_ & Hall & He)].
  - now symmetry in Hv.
  - destruct (He eq_refl) as [Hd Ho]. auto.
Qed.

(** Each pass that is handed the empty input by its read, in a question
    that is optional and has no default, calls the validators on it. *)
Lemma resolve_empty_calls q w :
  defaultTo q = EmptyString -> optional q = true ->
  validators q <> [] ->
  In (Validate 0 EmptyString) (trace (world_of (resolve q EmptyString w))).
Proof.
  intros Hd Ho Hvs.
  rewrite resolve_validated by (unfold validated; now rewrite Hd, Ho).
  destruct (validate_shape (validators q) 0 EmptyString w)
    as (k & _ & Hk & Hw).
  specialize (Hk Hvs).
  destruct (validate (validators q) 0 EmptyString w) as [[err|] w1];
    cbn in Hw; subst w1; cbn;
    (apply in_or_app; right; destruct k as [|k]; [lia | now left]).
Qed.

Lemma resolve_empty_accepted q w :
  defaultTo q = EmptyString -> optional q = true ->
  Forall (accepts EmptyString) (validators q) ->
  resolve q EmptyString w
  = Return (EmptyString, None)
      (logs (calls 0 (length (validators q)) EmptyString) w).
Proof.
  intros Hd Ho Hall.
  rewrite resolve_validated by (unfold validated; now rewrite Hd, Ho).
  now rewrite validate_pass.
Qed.

(** ** Claims *)

(** C1.  On the stream ["Mark\n27\n"], a question without default, not
    optional and without validators answers ["Mark"], then ["27"], and on
    the third call, the stream being used up, the empty string together
    with [ErrRequired]; each call has written its prompt and a space. *)
Theorem C1_ask_twice_then_required :
  forall (p1 p2 p3 out : string) (n1 n2 n3 : nat),
    let w0 := world (New out (buffer ("Mark" ++ nl ++ "27" ++ nl))) Background in
    exists w1 w2 w3,
      Ask (S n1) newQuestion p1 w0 = Return ("Mark", None) w1 /\
      Ask (S n2) newQuestion p2 w1 = Return ("27", None) w2 /\
      Ask (S n3) newQuestion p3 w2 = Return (EmptyString, Some ErrRequired) w3 /\
      pending (reader (prompter w3)) = EmptyString /\
      writer (prompter w3)
      = ((((out ++ p1 ++ " ") ++ p2 ++ " ") ++ p3 ++ " ")).
Proof.
  intros. do 3 eexists. repeat split; cbn; reflexivity.
Qed.

(** C7.  Under a context that is done before the read begins, [readInput]
    and [readPassword] return the context's error at once and leave the
    world as it was: no goroutine is launched and nothing is taken from the
    stream.  [Ask] and [Password] then return the empty string with that
    error, having written the prompt only. *)
Theorem C7_done_before_read :
  forall (q : Question) (prompt : string) (w : World) (cause : error)
         (fuel : nat),
    ctx_Err (ctx w) = Some cause ->
    readInput q w = ((EmptyString, Some cause), w) /\
    readPassword q w = ((EmptyString, Some cause), w) /\
    Ask (S fuel) q prompt w
    = Return (EmptyString, Some cause) (Fprint [prompt; " "] w) /\
    Password (S fuel) q prompt w
    = Return (EmptyString, Some cause) (Fprint [prompt; " "] w) /\
    reader (prompter (Fprint [prompt; " "] w)) = reader (prompter w) /\
    trace (Fprint [prompt; " "] w) = trace w.
Proof.
  intros q prompt w cause fuel H.
  assert (Hr : readInput q w = ((EmptyString, Some cause), w))
    by (unfold readInput; now rewrite H).
  assert (Hp : readPassword q w = ((EmptyString, Some cause), w))
    by (unfold readPassword; now rewrite H).
  repeat split; auto.
  - unfold Ask; cbn [loop]. unfold Ask_pass, readInput.
    change (ctx (Fprint [prompt; " "] w)) with (ctx w). now rewrite H.
  - unfold Password; cbn [loop]. unfold Password_pass, readPassword.
    change (ctx (Fprint [prompt; " "] w)) with (ctx w). now rewrite H.
Qed.

Lemma C7_witness :
  let w := world (New EmptyString (buffer ("Mark" ++ nl)))
                 (WithCancel Canceled 0 false) in
  ctx_Err (ctx w) = Some Canceled /\
  Ask 1 newQuestion "What is your name?" w
  = Return (EmptyString, Some Canceled)
      (world (New "What is your name? " (buffer ("Mark" ++ nl)))
             (WithCancel Canceled 0 false)).
Proof.
  split; [reflexivity|].
  exact (proj1 (proj2 (proj2
    (C7_done_before_read newQuestion "What is your name?"
       (world (New EmptyString (buffer ("Mark" ++ nl)))
              (WithCancel Canceled 0 false))
       Canceled 0 eq_refl)))).
Defined.

(** C9.  Whenever [Ask] or [Password] returns an error, the string next to
    it is empty, and whenever [Confirm] returns an error, the boolean next
    to it is [false]. *)
Theorem C9_error_comes_with_zero_value :
  forall (Quote : string -> string) (fuel : nat) (q : Question)
         (prompt : string) (w : World),
    (forall v err w',
        Ask fuel q prompt w = Return (v, Some err) w' -> v = EmptyString) /\
    (forall v err w',
        Password fuel q prompt w = Return (v, Some err) w' -> v = EmptyString) /\
    (forall b err w',
        fst (Confirm Quote fuel q prompt w) = Return (b, Some err) w' ->
        b = false).
Proof.
  intros Quote fuel q prompt w. repeat split.
  - intros v err w'. apply Ask_error.
  - intros v err w'. apply Password_error.
  - intros b err w'. unfold Confirm; cbn [fst]. apply answer_error.
Qed.

Lemma C9_witness :
  let w := world (New EmptyString (buffer EmptyString)) Background in
  let w' := world (New "? " (buffer EmptyString)) Background in
  let w'' := {| prompter := New "? " (buffer EmptyString); term := no_term;
                ctx := Background; trace := [Go_scanLine] |} in
  let wp := {| prompter := New "? " (buffer EmptyString); term := no_term;
               ctx := Background; trace := [Go_scanPassword] |} in
  (Ask 1 newQuestion "?" w = Return (EmptyString, Some ErrRequired) w'' /\
   EmptyString = EmptyString) /\
  (Password 1 newQuestion "?" w = Return (EmptyString, Some ErrRequired) wp /\
   EmptyString = EmptyString) /\
  (fst (Confirm quote_plain 1 newQuestion "?" w)
   = Return (false, Some ErrRequired) w'' /\ false = false).
Proof.
  cbv zeta.
  pose proof (C9_error_comes_with_zero_value quote_plain 1 newQuestion "?"
                (world (New EmptyString (buffer EmptyString)) Background))
    as (HAsk & HPassword & HConfirm).
  split; [|split]; (split; [reflexivity|]).
  - exact (HAsk EmptyString ErrRequired _ eq_refl).
  - exact (HPassword EmptyString ErrRequired _ eq_refl).
  - exact (HConfirm false ErrRequired _ eq_refl).
Defined.
(** C2, as stated, fails: on the empty stream the first pass of a question
    without default, not optional, returns [ErrRequired]; it does not go
    back to [retry], which a pass that reads an empty line does. *)
Lemma C2_counterexample :
  Ask_pass newQuestion "?" (world (New EmptyString (buffer EmptyString)) Background)
  = Return (EmptyString, Some ErrRequired)
      {| prompter := New "? " (buffer EmptyString); term := no_term;
         ctx := Background; trace := [Go_scanLine] |} /\
  Ask_pass newQuestion "?" (world (New EmptyString (buffer nl)) Background)
  = Retry {| prompter := New "? " (buffer EmptyString); term := no_term;
             ctx := Background; trace := [Go_scanLine] |} /\
  ~ end_of_input_retries.
Proof.
  split; [reflexivity|]. split; [reflexivity|].
  intros H.
  destruct (H newQuestion "?"
              (world (New EmptyString (buffer EmptyString)) Background)
              Background eq_refl eq_refl eq_refl (conj eq_refl eq_refl))
    as [w' Hw'].
  discriminate Hw'.
Qed.

(** C2, amended.  When the read of a pass runs into the end of the input and
    no default is set: if the question is not optional, the call returns
    the empty string with [ErrRequired] in that pass, without going back to
    [retry]; if it is optional, the bytes read before the end, trimmed of
    trailing CR and LF, are the input that the pass resolves. *)
Theorem C2_end_of_input :
  forall (q : Question) (prompt : string) (w : World) (c' : Context)
         (fuel : nat),
    defaultTo q = EmptyString ->
    race (ctx w) = ReadFirst c' ->
    at_end_of_input (reader (prompter w)) ->
    let w' := after_read prompt c' (advance EmptyString (reader (prompter w))) w in
    (optional q = false ->
     Ask (S fuel) q prompt w = Return (EmptyString, Some ErrRequired) w') /\
    (optional q = true ->
     Ask_pass q prompt w
     = resolve q (TrimRight (pending (reader (prompter w))) crlf) w').
Proof.
  intros q prompt w c' fuel Hd Hrace Hend w'.
  pose proof (Ask_pass_read q prompt w c' Hrace) as Hp.
  rewrite (scanLine_end q _ Hend), Hd in Hp. cbn [String.eqb negb] in Hp.
  split; intros Ho; rewrite Ho in Hp; cbn [negb] in Hp.
  - unfold Ask; cbn [loop]. now rewrite Hp.
  - exact Hp.
Qed.

Lemma C2_witness :
  let w := world (New EmptyString (buffer EmptyString)) Background in
  defaultTo newQuestion = EmptyString /\
  race (ctx w) = ReadFirst Background /\
  at_end_of_input (reader (prompter w)) /\
  optional newQuestion = false /\
  Ask 1 newQuestion "?" w
  = Return (EmptyString, Some ErrRequired)
      (after_read "?" Background (advance EmptyString (reader (prompter w))) w).
Proof.
  cbv zeta. repeat (split; [reflexivity|]).
  split; [split; reflexivity|]. split; [reflexivity|].
  exact (proj1 (C2_end_of_input newQuestion "?"
                  (world (New EmptyString (buffer EmptyString)) Background)
                  Background 0 eq_refl eq_refl (conj eq_refl eq_refl))
               eq_refl).
Defined.

(** C3, on the code.  At the end of the input [scanLine] sends the default
    down the input channel, and [Ask] validates what it receives: with the
    default ["21"] and a validator that rejects it, the pass calls the
    validator on ["21"], prints its message and goes back to [retry], and
    no amount of passes makes [Ask] or [Password] return.  After an empty
    line the same question is answered ["21"] and no validator is called. *)
Theorem C3_default_is_validated_at_end_of_input :
  let q := Is [reject "invalid"] (Prompter_Default "21") in
  let w := world (New EmptyString (buffer EmptyString)) Background in
  Ask_pass q "?" w
  = Retry {| prompter := New ("? invalid" ++ nl) (buffer EmptyString);
             term := no_term; ctx := Background;
             trace := [Go_scanLine; Validate 0 "21"] |} /\
  (forall fuel, exists w', Ask fuel q "?" w = Retry w') /\
  (forall fuel, exists w', Password fuel q "?" w = Retry w') /\
  Ask 1 q "?" (world (New EmptyString (buffer nl)) Background)
  = Return ("21", None)
      {| prompter := New "? " (buffer EmptyString); term := no_term;
         ctx := Background; trace := [Go_scanLine] |}.
Proof.
  cbv zeta. split; [reflexivity|]. split; [|split; [|reflexivity]].
  - intros fuel.
    pose proof (loop_inv
      (Ask_pass (Is [reject "invalid"] (Prompter_Default "21")) "?")
      (stands_as (world (New EmptyString (buffer EmptyString)) Background))
      (fun _ _ => False)) as L.
    unfold Ask.
    lazymatch type of L with
    | ?A -> ?B -> _ => assert (HA : A); [|assert (HB : B)]
    end.
    + intros [[wr rd f] t c tr] w1 (Hr & Hf & Ht & Hc); cbn in *; subst.
      cbv. intros H; inversion H; subst. repeat split.
    + intros [[wr rd f] t c tr] r w1 (Hr & Hf & Ht & Hc); cbn in *; subst.
      cbv. discriminate.
    + specialize (L HA HB fuel _ (conj eq_refl (conj eq_refl (conj eq_refl eq_refl)))).
      destruct (loop _ fuel _) as [r w1|w1]; [contradiction|now exists w1].
  - intros fuel.
    pose proof (loop_inv
      (Password_pass (Is [reject "invalid"] (Prompter_Default "21")) "?")
      (stands_as (world (New EmptyString (buffer EmptyString)) Background))
      (fun _ _ => False)) as L.
    unfold Password.
    lazymatch type of L with
    | ?A -> ?B -> _ => assert (HA : A); [|assert (HB : B)]
    end.
    + intros [[wr rd f] t c tr] w1 (Hr & Hf & Ht & Hc); cbn in *; subst.
      cbv. intros H; inversion H; subst. repeat split.
    + intros [[wr rd f] t c tr] r w1 (Hr & Hf & Ht & Hc); cbn in *; subst.
      cbv. discriminate.
    + specialize (L HA HB fuel _ (conj eq_refl (conj eq_refl (conj eq_refl eq_refl)))).
      destruct (loop _ fuel _) as [r w1|w1]; [contradiction|now exists w1].
Qed.

(** C5.  In a pass whose read delivers [input] and that hands it to the
    validators: the validators are called in the order of the list, each on
    [input]; the first one that fails ends the calls, its message and a
    newline are written, the pass goes back to [retry] and the next pass
    writes the prompt again; the pass returns [input] only when every
    validator accepts it, and then all of them have been called.  On the
    stream ["Am\nAmy\n"] with the validator of the test, [Ask] returns
    ["Amy"] and has written
    ["What is your name? 'Am' is too short\nWhat is your name? "]. *)
Theorem C5_validators_run_in_order :
  (forall (q : Question) (prompt input : string) (w w2 : World),
      readInput q (Fprint [prompt; " "] w) = ((input, None), w2) ->
      validated q input = true ->
      (forall (pre : list validator) (v : validator) (post : list validator)
              (err : error) (fuel : nat),
          validators q = (pre ++ v :: post)%list ->
          Forall (accepts input) pre ->
          v input = Some err ->
          let wr := Fprintln (Error err)
                      (logs (calls 0 (S (length pre)) input) w2) in
          Ask_pass q prompt w = Retry wr /\
          writer (prompter wr)
          = (writer (prompter w) ++ prompt ++ " ") ++ Error err ++ nl /\
          Ask (S fuel) q prompt w = Ask fuel q prompt wr /\
          extends (writer (prompter wr) ++ prompt ++ " ")
            (writer (prompter (world_of (Ask (S (S fuel)) q prompt w))))) /\
      (Forall (accepts input) (validators q) ->
       Ask_pass q prompt w
       = Return (input, None)
           (logs (calls 0 (length (validators q)) input) w2)) /\
      (forall r w',
          Ask_pass q prompt w = Return r w' ->
          r = (input, None) /\ Forall (accepts input) (validators q))) /\
  (forall fuel : nat,
      exists w',
        Ask (S (S fuel)) (Prompter_Is [validName]) "What is your name?"
            (world (New EmptyString (buffer ("Am" ++ nl ++ "Amy" ++ nl)))
                   Background)
        = Return ("Amy", None) w' /\
        writer (prompter w')
        = "What is your name? 'Am' is too short" ++ nl
          ++ "What is your name? ").
Proof.
  split.
  - intros q prompt input w w2 Hread Hval.
    assert (Hpass : Ask_pass q prompt w
                    = match validate (validators q) 0 input w2 with
                      | (Some err, w1) => Retry (Fprintln (Error err) w1)
                      | (None, w1) => Return (input, None) w1
                      end).
    { unfold Ask_pass. rewrite Hread. now apply resolve_validated. }
    assert (Hw2 : writer (prompter w2) = writer (prompter w) ++ prompt ++ " ").
    { pose proof (readInput_writer q (Fprint [prompt; " "] w)) as H.
      rewrite Hread in H. exact H. }
    split; [|split].
    + intros pre v post err fuel Hvs Hpre Hv wr.
      assert (Hretry : Ask_pass q prompt w = Retry wr).
      { rewrite Hpass, Hvs.
        now rewrite (validate_fail pre v post 0 input w2 err Hpre Hv). }
      assert (Hnext : Ask (S fuel) q prompt w = Ask fuel q prompt wr).
      { unfold Ask; cbn [loop]. now rewrite Hretry. }
      repeat split.
      * exact Hretry.
      * subst wr. cbn. now rewrite Hw2.
      * exact Hnext.
      * replace (Ask (S (S fuel)) q prompt w) with (Ask (S fuel) q prompt wr).
        -- apply Ask_writes.
        -- unfold Ask; cbn [loop]. now rewrite Hretry.
    + intros Hall. rewrite Hpass. now rewrite validate_pass.
    + intros r w' Hret. rewrite Hpass in Hret.
      destruct (validators_split (validators q) input)
        as [Hall | (pre & v & post & err & Hvs & Hpre & Hv)].
      * rewrite validate_pass in Hret by assumption.
        inversion Hret; subst. now split.
      * rewrite Hvs, (validate_fail pre v post 0 input w2 err Hpre Hv) in Hret.
        discriminate Hret.
  - intros fuel. eexists. split; cbn; reflexivity.
Qed.

Lemma C5_witness :
  let q := Prompter_Is [validName] in
  let w := world (New EmptyString (buffer ("Am" ++ nl ++ "Amy" ++ nl)))
                 Background in
  let w2 := {| prompter := New "What is your name? " (buffer ("Amy" ++ nl));
               term := no_term; ctx := Background; trace := [Go_scanLine] |} in
  readInput q (Fprint ["What is your name?"; " "] w) = (("Am", None), w2) /\
  validated q "Am" = true /\
  validators q = ([] ++ validName :: [])%list /\
  Forall (accepts "Am") [] /\
  validName "Am" = Some (Errorf "'Am' is too short") /\
  Ask_pass q "What is your name?" w
  = Retry {| prompter := New ("What is your name? 'Am' is too short" ++ nl)
                             (buffer ("Amy" ++ nl));
             term := no_term; ctx := Background;
             trace := [Go_scanLine; Validate 0 "Am"] |}.
Proof.
  cbv zeta.
  split; [reflexivity|]. split; [reflexivity|]. split; [reflexivity|].
  split; [constructor|]. split; [reflexivity|].
  exact (proj1 (proj1 (proj1 C5_validators_run_in_order
           (Prompter_Is [validName]) "What is your name?" "Am"
           (world (New EmptyString (buffer ("Am" ++ nl ++ "Amy" ++ nl)))
                  Background)
           _ eq_refl eq_refl)
         [] validName [] (Errorf "'Am' is too short") 0
         eq_refl (Forall_nil _) eq_refl)).
Defined.

(** C4, as stated, fails: an optional question without default hands the
    empty line it reads to its validator, and returns the empty string when
    the validator accepts it; the validator of [Confirm] is called on the
    empty string too, and rejects it. *)
Lemma C4_counterexample :
  Ask 1 (Is [accept] (Prompter_Optional true)) "?"
      (world (New EmptyString (buffer nl)) Background)
  = Return (EmptyString, None)
      {| prompter := New "? " (buffer EmptyString); term := no_term;
         ctx := Background; trace := [Go_scanLine; Validate 0 EmptyString] |} /\
  fst (Confirm quote_plain 1 (Prompter_Optional true) "?"
         (world (New EmptyString (buffer nl)) Background))
  = Retry {| prompter :=
               New ("? invalid value " ++ quote_plain EmptyString
                    ++ ", must enter yes or no" ++ nl) (buffer EmptyString);
             term := no_term; ctx := Background;
             trace := [Go_scanLine; Validate 0 EmptyString] |} /\
  ~ never_validates_empty.
Proof.
  split; [reflexivity|]. split; [reflexivity|].
  intros H.
  apply (H 1 (Is [accept] (Prompter_Optional true)) "?"
           (world (New EmptyString (buffer nl)) Background) 0 eq_refl).
  cbn. right. now left.
Qed.

(** C4, amended.  In every call of [Ask], [Password] and [Confirm], however
    far it has got, a validator has been called on the empty string only if
    the question is optional and has no default.  In such a question, a
    pass of [Ask] or [Password], or of the [Ask] that [Confirm] runs, whose
    read delivers the empty input does call the first validator on the
    empty string: so it is after an empty line and at the end of an input
    that has nothing pending but line ends.  The pass returns the empty
    string when every validator accepts it, and a call returns the empty
    string without error only if every validator accepts it, in an
    optional question without default; [Confirm], whose own validator
    rejects it, never takes the empty string for an answer. *)
Theorem C4_validators_and_empty_input :
  forall (Quote : string -> string) (fuel : nat) (q : Question)
         (prompt : string) (w : World),
    logged (empty_call_allowed q) w (Ask fuel q prompt w) /\
    logged (empty_call_allowed q) w (Password fuel q prompt w) /\
    logged (empty_call_allowed q) w (fst (Confirm Quote fuel q prompt w)) /\
    (forall (c' : Context) (line rest : string),
        defaultTo q = EmptyString -> optional q = true ->
        validators q <> [] ->
        race (ctx w) = ReadFirst c' ->
        cut LF (pending (reader (prompter w))) = Some (line, rest) ->
        TrimRight line crlf = EmptyString ->
        In (Validate 0 EmptyString)
           (trace (world_of (Ask_pass q prompt w)))) /\
    (forall c' : Context,
        defaultTo q = EmptyString -> optional q = true ->
        validators q <> [] ->
        race (ctx w) = ReadFirst c' ->
        at_end_of_input (reader (prompter w)) ->
        TrimRight (pending (reader (prompter w))) crlf = EmptyString ->
        In (Validate 0 EmptyString)
           (trace (world_of (Ask_pass q prompt w)))) /\
    (forall w2,
        defaultTo q = EmptyString -> optional q = true ->
        validators q <> [] ->
        readInput q (Fprint [prompt; " "] w) = ((EmptyString, None), w2) ->
        In (Validate 0 EmptyString)
           (trace (world_of (Ask_pass q prompt w)))) /\
    (forall w2,
        defaultTo q = EmptyString -> optional q = true ->
        validators q <> [] ->
        readPassword q (Fprint [prompt; " "] w) = ((EmptyString, None), w2) ->
        In (Validate 0 EmptyString)
           (trace (world_of (Password_pass q prompt w)))) /\
    (forall w2,
        defaultTo q = EmptyString -> optional q = true ->
        readInput (Is [yesOrNo Quote] q) (Fprint [prompt; " "] w)
        = ((EmptyString, None), w2) ->
        In (Validate 0 EmptyString)
           (trace (world_of (fst (Confirm Quote 1 q prompt w))))) /\
    (forall w2,
        defaultTo q = EmptyString -> optional q = true ->
        Forall (accepts EmptyString) (validators q) ->
        (readInput q (Fprint [prompt; " "] w) = ((EmptyString, None), w2) ->
         Ask_pass q prompt w
         = Return (EmptyString, None)
             (logs (calls 0 (length (validators q)) EmptyString) w2)) /\
        (readPassword q (Fprint [prompt; " "] w) = ((EmptyString, None), w2) ->
         Password_pass q prompt w
         = Return (EmptyString, None)
             (logs (calls 0 (length (validators q)) EmptyString)
                (Fprintln EmptyString w2)))) /\
    (forall w',
        Ask fuel q prompt w = Return (EmptyString, None) w' ->
        defaultTo q = EmptyString /\ optional q = true /\
        Forall (accepts EmptyString) (validators q)) /\
    (forall w',
        Password fuel q prompt w = Return (EmptyString, None) w' ->
        defaultTo q = EmptyString /\ optional q = true /\
        Forall (accepts EmptyString) (validators q)) /\
    (forall w',
        Ask fuel (Is [yesOrNo Quote] q) prompt w
        <> Return (EmptyString, None) w').
Proof.
  intros Quote fuel q prompt w.
  assert (HAsk : forall q0 w',
             Ask fuel q0 prompt w = Return (EmptyString, None) w' ->
             defaultTo q0 = EmptyString /\ optional q0 = true /\
             Forall (accepts EmptyString) (validators q0)).
  { intros q0 w'. unfold Ask. apply loop_returns_empty.
    intros w0 w1. unfold Ask_pass.
    destruct (readInput q0 _) as [[input [err|]] w2]; [discriminate|].
    apply resolve_returns_empty. }
  split; [|split; [|split; [|split; [|split; [|split; [|split; [|split;
    [|split; [|split; [|split]]]]]]]]]].
  - apply loop_logged. apply Ask_pass_logged.
  - apply loop_logged. apply Password_pass_logged.
  - unfold Confirm; cbn [fst].
    destruct (loop_logged _ _ (Ask_pass_logged (Is [yesOrNo Quote] q) prompt)
                fuel w) as (evs & Ht & F).
    exists evs. rewrite world_of_answer. split; [exact Ht|].
    exact F.
  - intros c' line rest Hd Ho Hvs Hrace Hcut Htrim.
    rewrite (Ask_pass_read q prompt w c' Hrace).
    rewrite (scanLine_line q _ line rest Hcut), Htrim.
    now apply resolve_empty_calls.
  - intros c' Hd Ho Hvs Hrace Hend Htrim.
    rewrite (Ask_pass_read q prompt w c' Hrace).
    rewrite (scanLine_end q _ Hend), Hd, Ho, Htrim. cbn [String.eqb negb].
    now apply resolve_empty_calls.
  - intros w2 Hd Ho Hvs Hread. unfold Ask_pass. rewrite Hread.
    now apply resolve_empty_calls.
  - intros w2 Hd Ho Hvs Hread. unfold Password_pass. rewrite Hread.
    now apply resolve_empty_calls.
  - intros w2 Hd Ho Hread. unfold Confirm; cbn [fst].
    rewrite world_of_answer. unfold Ask; cbn [loop].
    assert (Hin : In (Validate 0 EmptyString)
                     (trace (world_of
                        (Ask_pass (Is [yesOrNo Quote] q) prompt w)))).
    { unfold Ask_pass. rewrite Hread. apply resolve_empty_calls; auto.
      cbn [validators Is]. now destruct (validators q). }
    now destruct (Ask_pass (Is [yesOrNo Quote] q) prompt w).
  - intros w2 Hd Ho Hall. split; intros Hread.
    + unfold Ask_pass. rewrite Hread. now apply resolve_empty_accepted.
    + unfold Password_pass. rewrite Hread. now apply resolve_empty_accepted.
  - apply HAsk.
  - intros w'. unfold Password. apply loop_returns_empty.
    intros w0 w1. unfold Password_pass.
    destruct (readPassword q _) as [[input [err|]] w2]; [discriminate|].
    apply resolve_returns_empty.
  - intros w' H. apply HAsk in H as (_ & _ & Hall).
    cbn [validators Is] in Hall. apply Forall_app in Hall as [_ Hy].
    inversion Hy as [|? ? Hacc _]; subst. discriminate Hacc.
Qed.

Lemma C4_witness :
  let q := Is [accept] (Prompter_Optional true) in
  let w := world (New EmptyString (buffer nl)) Background in
  defaultTo q = EmptyString /\ optional q = true /\ validators q <> [] /\
  race (ctx w) = ReadFirst Background /\
  cut LF (pending (reader (prompter w))) = Some (nl, EmptyString) /\
  TrimRight nl crlf = EmptyString /\
  In (Validate 0 EmptyString) (trace (world_of (Ask_pass q "?" w))).
Proof.
  cbv zeta.
  split; [reflexivity|]. split; [reflexivity|]. split; [discriminate|].
  split; [reflexivity|]. split; [reflexivity|]. split; [reflexivity|].
  exact (proj1 (proj2 (proj2 (proj2
           (C4_validators_and_empty_input quote_plain 0
              (Is [accept] (Prompter_Optional true)) "?"
              (world (New EmptyString (buffer nl)) Background)))))
         Background nl EmptyString eq_refl eq_refl
         (fun H => match H in (_ = l) return
                           match l with [] => False | _ => True end
                   with eq_refl => I end)
         eq_refl eq_refl eq_refl).
Defined.

(** C6.  The validator that [Confirm] appends accepts the spellings of
    [y], [yes], [n] and [no] in either case of each letter and nothing
    else; what it rejects it reports in a message that quotes the input.
    [Confirm] then is [Ask] on the question with that validator appended:
    an error of [Ask] is passed on, and an accepted string yields [true]
    exactly when its lower-case form is [y], [yes] or [true].  On the
    streams of the tests, ["hello\nyes\n"] yields [true] and
    ["hello\nno\n"] yields [false], both after one complaint about
    ["hello"]. *)
Theorem C6_confirm :
  forall Quote : string -> string,
    (forall s, yesOrNo Quote s = None
               <-> In s (yes_spellings ++ no_spellings)%list) /\
    (forall s, ~ In s (yes_spellings ++ no_spellings)%list ->
               yesOrNo Quote s
               = Some (Errorf ("invalid value " ++ Quote s
                               ++ ", must enter yes or no"))) /\
    (forall fuel q prompt w,
        snd (Confirm Quote fuel q prompt w) = Is [yesOrNo Quote] q /\
        validators (Is [yesOrNo Quote] q)
        = (validators q ++ [yesOrNo Quote])%list /\
        match Ask fuel (Is [yesOrNo Quote] q) prompt w with
        | Return (input, None) w' =>
            fst (Confirm Quote fuel q prompt w) = Return (isYes input, None) w'
        | Return (_, Some err) w' =>
            fst (Confirm Quote fuel q prompt w) = Return (false, Some err) w'
        | Retry w' => fst (Confirm Quote fuel q prompt w) = Retry w'
        end) /\
    (forall s, isYes s = true
               <-> ToLower s = "y" \/ ToLower s = "yes" \/ ToLower s = "true") /\
    (forall s, In s (yes_spellings ++ no_spellings)%list ->
               (isYes s = true <-> In s yes_spellings)) /\
    (forall fuel : nat,
        exists w',
          Prompter_Confirm quote_plain (S (S fuel)) "Create new user? (yes/no)"
            (world (New EmptyString (buffer ("hello" ++ nl ++ "yes" ++ nl)))
                   Background)
          = Return (true, None) w' /\
          writer (prompter w')
          = "Create new user? (yes/no) invalid value " ++ quote_plain "hello"
            ++ ", must enter yes or no" ++ nl ++ "Create new user? (yes/no) ") /\
    (forall fuel : nat,
        exists w',
          Prompter_Confirm quote_plain (S (S fuel)) "Create new user? (yes/no)"
            (world (New EmptyString (buffer ("hello" ++ nl ++ "no" ++ nl)))
                   Background)
          = Return (false, None) w' /\
          writer (prompter w')
          = "Create new user? (yes/no) invalid value " ++ quote_plain "hello"
            ++ ", must enter yes or no" ++ nl ++ "Create new user? (yes/no) ").
Proof.
  intros Quote. split; [|split; [|split; [|split; [|split; [|split]]]]].
  - intros s. apply yesOrNo_accepts.
  - intros s H. apply yesOrNo_rejects. now rewrite yesOrNo_accepts.
  - intros fuel q prompt w. split; [reflexivity|]. split; [reflexivity|].
    unfold Confirm; cbn [fst].
    now destruct (Ask fuel (Is [yesOrNo Quote] q) prompt w)
      as [[input [err|]] w'|w'].
  - intros s. apply isYes_true.
  - intros s H. split.
    + intros Hy. apply in_app_iff in H as [H | H]; [exact H|].
      cbn in H.
      repeat (destruct H as [<- | H]; [discriminate Hy|]). contradiction.
    + intros Hy. cbn in Hy.
      repeat (destruct Hy as [<- | Hy]; [reflexivity|]). contradiction.
  - intros fuel. eexists; split; cbn; reflexivity.
  - intros fuel. eexists; split; cbn; reflexivity.
Qed.

Lemma C6_witness :
  ~ In "hello" (yes_spellings ++ no_spellings)%list /\
  yesOrNo quote_plain "hello"
  = Some (Errorf ("invalid value " ++ quote_plain "hello"
                  ++ ", must enter yes or no")).
Proof.
  assert (H : ~ In "hello" (yes_spellings ++ no_spellings)%list).
  { cbn. intros H.
    repeat (destruct H as [H | H]; [discriminate H|]). exact H. }
  split; [exact H|].
  exact (proj1 (proj2 (C6_confirm quote_plain)) "hello" H).
Defined.

(** C10.  [Confirm] leaves the question with its yes/no validator appended
    behind the validators it had, and a second [Confirm] on that question
    is [Ask] with the validator twice at the end.  In a pass, a validator
    attached earlier that rejects the input is the one whose message is
    written, and the yes/no validator is not called in that pass.  On the
    stream ["yes\nno\n"], the first [Confirm] calls one validator and the
    second, on the same question, two. *)
Theorem C10_confirm_appends_for_good :
  forall Quote : string -> string,
    (forall fuel q prompt w,
        validators (snd (Confirm Quote fuel q prompt w))
        = (validators q ++ [yesOrNo Quote])%list /\
        defaultTo (snd (Confirm Quote fuel q prompt w)) = defaultTo q /\
        optional (snd (Confirm Quote fuel q prompt w)) = optional q) /\
    (forall f1 f2 q p1 p2 w1 w2,
        let q1 := snd (Confirm Quote f1 q p1 w1) in
        validators (snd (Confirm Quote f2 q1 p2 w2))
        = (validators q ++ [yesOrNo Quote; yesOrNo Quote])%list /\
        fst (Confirm Quote f2 q1 p2 w2)
        = answer (Ask f2 (Is [yesOrNo Quote; yesOrNo Quote] q) p2 w2)) /\
    (forall q prompt input w w2 (pre : list validator) (v : validator)
            (post : list validator) err fuel,
        readInput (Is [yesOrNo Quote] q) (Fprint [prompt; " "] w)
        = ((input, None), w2) ->
        validated q input = true ->
        validators q = (pre ++ v :: post)%list ->
        Forall (accepts input) pre ->
        v input = Some err ->
        let wr := Fprintln (Error err)
                    (logs (calls 0 (S (length pre)) input) w2) in
        fst (Confirm Quote (S fuel) q prompt w)
        = answer (Ask fuel (Is [yesOrNo Quote] q) prompt wr) /\
        ~ In (Validate (length (validators q)) input)
             (calls 0 (S (length pre)) input)) /\
    (let w := world (New EmptyString (buffer ("yes" ++ nl ++ "no" ++ nl)))
                    Background in
     let first := Confirm quote_plain 1 newQuestion "?" w in
     let second := Confirm quote_plain 1 (snd first) "?" (world_of (fst first)) in
     fst first
     = Return (true, None)
         {| prompter := New "? " (buffer ("no" ++ nl)); term := no_term;
            ctx := Background; trace := [Go_scanLine; Validate 0 "yes"] |} /\
     fst second
     = Return (false, None)
         {| prompter := New "? ? " (buffer EmptyString); term := no_term;
            ctx := Background;
            trace := [Go_scanLine; Validate 0 "yes";
                      Go_scanLine; Validate 0 "no"; Validate 1 "no"] |}).
Proof.
  intros Quote. split; [|split; [|split]].
  - intros fuel q prompt w. now cbn.
  - intros f1 f2 q p1 p2 w1 w2 q1. subst q1. unfold Confirm; cbn [fst snd].
    assert (E : Is [yesOrNo Quote] (Is [yesOrNo Quote] q)
                = Is [yesOrNo Quote; yesOrNo Quote] q).
    { unfold Is; cbn. now rewrite <- app_assoc. }
    rewrite E. now split.
  - intros q prompt input w w2 pre v post err fuel Hread Hval Hvs Hpre Hv wr.
    split.
    + unfold Confirm; cbn [fst]. f_equal. unfold Ask; cbn [loop].
      unfold Ask_pass. rewrite Hread.
      rewrite resolve_validated by exact Hval.
      cbn [validators Is]. rewrite Hvs, <- app_assoc.
      change ((v :: post) ++ [yesOrNo Quote])%list
        with (v :: (post ++ [yesOrNo Quote]))%list.
      now rewrite (validate_fail pre v _ 0 input w2 err Hpre Hv).
    + rewrite Hvs, length_app. unfold calls. intros Hin.
      apply in_map_iff in Hin as (j & Hj & Hin). apply in_seq in Hin.
      inversion Hj; subst j. cbn in Hin. lia.
  - cbv zeta. split; reflexivity.
Qed.

Lemma C10_witness :
  let q := Prompter_Is [validName] in
  let w := world (New EmptyString (buffer ("Am" ++ nl ++ "no" ++ nl)))
                 Background in
  let w2 := {| prompter := New "? " (buffer ("no" ++ nl));
               term := no_term; ctx := Background; trace := [Go_scanLine] |} in
  readInput (Is [yesOrNo quote_plain] q) (Fprint ["?"; " "] w)
  = (("Am", None), w2) /\
  validated q "Am" = true /\
  validators q = ([] ++ validName :: [])%list /\
  Forall (accepts "Am") [] /\
  validName "Am" = Some (Errorf "'Am' is too short") /\
  ~ In (Validate 1 "Am") (calls 0 1 "Am").
Proof.
  cbv zeta.
  split; [reflexivity|]. split; [reflexivity|]. split; [reflexivity|].
  split; [constructor|]. split; [reflexivity|].
  exact (proj2 (proj1 (proj2 (proj2 (C10_confirm_appends_for_good quote_plain)))
           (Prompter_Is [validName]) "?" "Am"
           (world (New EmptyString (buffer ("Am" ++ nl ++ "no" ++ nl)))
                  Background)
           _ [] validName [] (Errorf "'Am' is too short") 0
           eq_refl eq_refl eq_refl (Forall_nil _) eq_refl)).
Defined.

(** C8.  An error returned by [Ask], [Password] or [Confirm] is
    [ErrRequired], the error the context is done with, or a failure of the
    input (of the stream; for [Password] possibly of the terminal).  The
    errors of the validators never reach the caller: validators that accept
    and reject the same inputs, whatever errors they reject with, lead to
    the same result and differ only in what is written; and a pass of
    [Ask], [Password] or [Confirm] in which a validator rejects the input
    writes the message and a newline and ends at [retry], from where the
    call goes on with another pass, which writes the prompt again. *)
Theorem C8_errors_returned :
  forall (Quote : string -> string) (fuel : nat) (q : Question)
         (prompt : string) (w : World),
    (forall v e w',
        Ask fuel q prompt w = Return (v, Some e) w' -> surfaces false w e) /\
    (forall v e w',
        Password fuel q prompt w = Return (v, Some e) w' -> surfaces true w e) /\
    (forall b e w',
        fst (Confirm Quote fuel q prompt w) = Return (b, Some e) w' ->
        surfaces false w e) /\
    (forall q',
        defaultTo q = defaultTo q' -> optional q = optional q' ->
        same_verdicts (validators q) (validators q') ->
        same_answer (Ask fuel q prompt w) (Ask fuel q' prompt w) /\
        same_answer (Password fuel q prompt w) (Password fuel q' prompt w)) /\
    (forall input w2 (pre : list validator) (v : validator)
            (post : list validator) err (n : nat),
        readInput q (Fprint [prompt; " "] w) = ((input, None), w2) ->
        validated q input = true ->
        validators q = (pre ++ v :: post)%list ->
        Forall (accepts input) pre ->
        v input = Some err ->
        let wr := Fprintln (Error err)
                    (logs (calls 0 (S (length pre)) input) w2) in
        Ask_pass q prompt w = Retry wr /\
        writer (prompter wr)
        = (writer (prompter w) ++ prompt ++ " ") ++ Error err ++ nl /\
        Ask (S n) q prompt w = Ask n q prompt wr /\
        extends (writer (prompter wr) ++ prompt ++ " ")
          (writer (prompter (world_of (Ask (S (S n)) q prompt w))))) /\
    (forall input w2 (pre : list validator) (v : validator)
            (post : list validator) err (n : nat),
        readPassword q (Fprint [prompt; " "] w) = ((input, None), w2) ->
        validated q input = true ->
        validators q = (pre ++ v :: post)%list ->
        Forall (accepts input) pre ->
        v input = Some err ->
        let wr := Fprintln (Error err)
                    (logs (calls 0 (S (length pre)) input)
                       (Fprintln EmptyString w2)) in
        Password_pass q prompt w = Retry wr /\
        writer (prompter wr)
        = ((writer (prompter w) ++ prompt ++ " ") ++ nl) ++ Error err ++ nl /\
        Password (S n) q prompt w = Password n q prompt wr /\
        extends (writer (prompter wr) ++ prompt ++ " ")
          (writer (prompter (world_of (Password (S (S n)) q prompt w))))) /\
    (forall input w2 (pre : list validator) (v : validator)
            (post : list validator) err (n : nat),
        readInput (Is [yesOrNo Quote] q) (Fprint [prompt; " "] w)
        = ((input, None), w2) ->
        validated q input = true ->
        (validators q ++ [yesOrNo Quote])%list = (pre ++ v :: post)%list ->
        Forall (accepts input) pre ->
        v input = Some err ->
        let wr := Fprintln (Error err)
                    (logs (calls 0 (S (length pre)) input) w2) in
        writer (prompter wr)
        = (writer (prompter w) ++ prompt ++ " ") ++ Error err ++ nl /\
        fst (Confirm Quote (S n) q prompt w)
        = answer (Ask n (Is [yesOrNo Quote] q) prompt wr) /\
        extends (writer (prompter wr) ++ prompt ++ " ")
          (writer (prompter
             (world_of (fst (Confirm Quote (S (S n)) q prompt w)))))).
Proof.
  intros Quote fuel q prompt w.
  assert (HAsk : forall q0 input w2 (pre : list validator) (v : validator)
                        (post : list validator) err (n : nat),
             readInput q0 (Fprint [prompt; " "] w) = ((input, None), w2) ->
             validated q0 input = true ->
             validators q0 = (pre ++ v :: post)%list ->
             Forall (accepts input) pre ->
             v input = Some err ->
             let wr := Fprintln (Error err)
                         (logs (calls 0 (S (length pre)) input) w2) in
             Ask_pass q0 prompt w = Retry wr /\
             writer (prompter wr)
             = (writer (prompter w) ++ prompt ++ " ") ++ Error err ++ nl /\
             Ask (S n) q0 prompt w = Ask n q0 prompt wr /\
             extends (writer (prompter wr) ++ prompt ++ " ")
               (writer (prompter (world_of (Ask (S (S n)) q0 prompt w))))).
  { intros q0 input w2 pre v post err n Hread Hval Hvs Hpre Hv wr.
    assert (Hretry : Ask_pass q0 prompt w = Retry wr)
      by (eapply Ask_pass_rejected; eauto).
    assert (Hnext : forall k, Ask (S k) q0 prompt w = Ask k q0 prompt wr)
      by (intros k; unfold Ask; cbn [loop]; now rewrite Hretry).
    split; [exact Hretry|]. split; [|split].
    - pose proof (readInput_writer q0 (Fprint [prompt; " "] w)) as Hw.
      rewrite Hread in Hw. cbn in Hw. subst wr. cbn. now rewrite Hw.
    - apply Hnext.
    - rewrite (Hnext (S n)). apply Ask_writes. }
  split; [|split; [|split; [|split; [|split; [|split]]]]].
  - intros v e w'. unfold Ask.
    apply (loop_surfaces false (Ask_pass q prompt)).
    + apply Ask_pass_continues.
    + apply Ask_pass_surfaces.
  - intros v e w'. unfold Password.
    apply (loop_surfaces true (Password_pass q prompt)).
    + apply Password_pass_continues.
    + apply Password_pass_surfaces.
  - intros b e w' H. unfold Confirm in H; cbn [fst] in H.
    apply answer_error_inv in H as [v H]. revert H. unfold Ask.
    apply (loop_surfaces false (Ask_pass (Is [yesOrNo Quote] q) prompt)).
    + apply Ask_pass_continues.
    + apply Ask_pass_surfaces.
  - intros q' Hd Ho Hvs. split.
    + apply loop_same_answer; [|reflexivity].
      intros w1 w1'. now apply Ask_pass_verdicts.
    + apply loop_same_answer; [|reflexivity].
      intros w1 w1'. now apply Password_pass_verdicts.
  - apply HAsk.
  - intros input w2 pre v post err n Hread Hval Hvs Hpre Hv wr.
    assert (Hretry : Password_pass q prompt w = Retry wr)
      by (eapply Password_pass_rejected; eauto).
    assert (Hnext : forall k,
               Password (S k) q prompt w = Password k q prompt wr)
      by (intros k; unfold Password; cbn [loop]; now rewrite Hretry).
    split; [exact Hretry|]. split; [|split].
    + pose proof (readPassword_writer q (Fprint [prompt; " "] w)) as Hw.
      rewrite Hread in Hw. cbn in Hw. subst wr. cbn. now rewrite Hw.
    + apply Hnext.
    + rewrite (Hnext (S n)). apply Password_writes.
  - intros input w2 pre v post err n Hread Hval Hvs Hpre Hv wr.
    destruct (HAsk (Is [yesOrNo Quote] q) input w2 pre v post err n
                Hread Hval Hvs Hpre Hv) as (_ & Hw & Hnext & Hext).
    split; [exact Hw|]. split.
    + unfold Confirm; cbn [fst]. now rewrite Hnext.
    + unfold Confirm; cbn [fst]. rewrite world_of_answer. exact Hext.
Qed.

Lemma C8_witness :
  let q := Prompter_Is [validName] in
  let w := world (New EmptyString (buffer ("Am" ++ nl))) Background in
  Ask 2 q "?" w
  = Return (EmptyString, Some ErrRequired)
      {| prompter := New ("? 'Am' is too short" ++ nl ++ "? ")
                         (buffer EmptyString);
         term := no_term; ctx := Background;
         trace := [Go_scanLine; Validate 0 "Am"; Go_scanLine] |} /\
  surfaces false w ErrRequired.
Proof.
  cbv zeta. split; [reflexivity|].
  exact (proj1 (C8_errors_returned quote_plain 2 (Prompter_Is [validName]) "?"
                  (world (New EmptyString (buffer ("Am" ++ nl))) Background))
               EmptyString ErrRequired _ eq_refl).
Defined.

(** * Further properties of the readers and of the loop *)

(** ** Lines *)

Lemma append_nil_r (s : string) : s ++ EmptyString = s.
Proof. induction s as [|c s IH]; cbn; [reflexivity | now rewrite IH]. Qed.

Lemma cut_app d s line rest : cut d s = Some (line, rest) -> s = line ++ rest.
Proof.
  revert line rest. induction s as [|c s IH]; intros line rest; cbn.
  - discriminate.
  - destruct (Ascii.eqb c d).
    + intros H; inversion H; subst. reflexivity.
    + destruct (cut d s) as [[l r]|]; [|discriminate].
      intros H; inversion H; subst. cbn. now rewrite <- (IH l rest eq_refl).
Qed.

Lemma cut_count d s line rest :
  cut d s = Some (line, rest) -> count d s = S (count d rest).
Proof.
  revert line rest. induction s as [|c s IH]; intros line rest; cbn.
  - discriminate.
  - destruct (Ascii.eqb c d).
    + intros H; inversion H; subst. reflexivity.
    + destruct (cut d s) as [[l r]|]; [|discriminate].
      intros H; inversion H; subst. now apply (IH l rest).
Qed.

Lemma cut_none_count d s : cut d s = None <-> count d s = 0.
Proof.
  induction s as [|c s IH]; cbn; [tauto|].
  destruct (Ascii.eqb c d); [split; discriminate|].
  destruct (cut d s) as [[l r]|]; cbn.
  - split; [discriminate|]. intros H. now apply IH in H.
  - split; [|reflexivity]. intros _. now apply IH.
Qed.

Lemma cut_line_app d l s :
  cut d l = Some (l, EmptyString) -> cut d (l ++ s) = Some (l, s).
Proof.
  induction l as [|c l IH]; cbn; [discriminate|].
  destruct (Ascii.eqb c d).
  - intros H; inversion H; subst. reflexivity.
  - destruct (cut d l) as [[l' r']|] eqn:E; [|discriminate].
    intros H; inversion H; subst. now rewrite IH.
Qed.

Lemma cut_body d body s :
  count d body = 0 ->
  cut d (body ++ String d s) = Some (body ++ String d EmptyString, s).
Proof.
  induction body as [|c body IH]; cbn.
  - now rewrite Ascii.eqb_refl.
  - destruct (Ascii.eqb c d); [discriminate|].
    cbn. intros H. now rewrite IH.
Qed.

Lemma TrimRight_trailing s t cutset :
  TrimRight t cutset = EmptyString ->
  TrimRight (s ++ t) cutset = TrimRight s cutset.
Proof.
  intros Ht. induction s as [|c s IH]; cbn; [exact Ht | now rewrite IH].
Qed.

(** X1.  [scanLine] delivers a line without its terminator, be it LF or
    CR LF: when the pending bytes are a body free of LF and not ending in
    CR, then a terminator, then the rest, the body is the input and the
    rest is what stays pending. *)
Theorem scanLine_strips_terminator :
  forall (q : Question) (r : Reader) (body terminator rest : string),
    count LF body = 0 ->
    TrimRight body crlf = body ->
    terminator = nl \/ terminator = crlf ->
    pending r = body ++ terminator ++ rest ->
    scanLine q r = (OnInput body, advance rest r).
Proof.
  intros q r body terminator rest Hlf Htrim Hterm Hpend.
  destruct Hterm as [-> | ->].
  - rewrite (scanLine_line q r (body ++ nl) rest).
    + now rewrite TrimRight_trailing, Htrim.
    + rewrite Hpend. now apply cut_body.
  - assert (Hcut : cut LF (pending r)
                   = Some ((body ++ String CR EmptyString) ++ nl, rest)).
    { rewrite Hpend.
      replace (body ++ crlf ++ rest)
        with ((body ++ String CR EmptyString) ++ String LF rest)
        by (now rewrite append_assoc).
      apply cut_body.
      clear -Hlf. induction body as [|c body IH]; cbn in *; [reflexivity|].
      destruct (Ascii.eqb c LF); [discriminate | now apply IH]. }
    rewrite (scanLine_line q r _ rest Hcut).
    rewrite append_assoc. now rewrite TrimRight_trailing, Htrim.
Qed.

Lemma scanLine_strips_terminator_witness :
  let r := buffer ("Mark" ++ crlf ++ "27" ++ nl) in
  count LF "Mark" = 0 /\ TrimRight "Mark" crlf = "Mark" /\
  pending r = "Mark" ++ crlf ++ "27" ++ nl /\
  scanLine newQuestion r = (OnInput "Mark", advance ("27" ++ nl) r).
Proof.
  cbv zeta. split; [reflexivity|]. split; [reflexivity|]. split; [reflexivity|].
  exact (scanLine_strips_terminator newQuestion
           (buffer ("Mark" ++ crlf ++ "27" ++ nl)) "Mark" crlf ("27" ++ nl)
           eq_refl eq_refl (or_intror eq_refl) eq_refl).
Defined.

(** ** Calls that end in their first pass *)

Lemma Ask_first_pass fuel q prompt w r w' :
  Ask_pass q prompt w = Return r w' -> Ask (S fuel) q prompt w = Return r w'.
Proof. unfold Ask; cbn [loop]. now intros ->. Qed.

Lemma Ask_next_pass fuel q prompt w w' :
  Ask_pass q prompt w = Retry w' ->
  Ask (S fuel) q prompt w = Ask fuel q prompt w'.
Proof. unfold Ask; cbn [loop]. now intros ->. Qed.

Lemma eqb_empty_false s : s <> EmptyString -> (s =? EmptyString) = false.
Proof. intros H. now apply String.eqb_neq. Qed.

Lemma Ask_returns_accepted_line_aux q prompt w c' line rest v fuel :
  race (ctx w) = ReadFirst c' ->
  cut LF (pending (reader (prompter w))) = Some (line, rest) ->
  TrimRight line crlf = v ->
  v <> EmptyString ->
  Forall (accepts v) (validators q) ->
  Ask (S fuel) q prompt w
  = Return (v, None)
      (logs (calls 0 (length (validators q)) v)
         (after_read prompt c' (advance rest (reader (prompter w))) w)).
Proof.
  intros Hrace Hcut Htrim Hv Hall.
  apply Ask_first_pass.
  rewrite (Ask_pass_read q prompt w c' Hrace).
  rewrite (scanLine_line q _ line rest Hcut), Htrim.
  rewrite resolve_validated
    by (unfold validated; now rewrite (eqb_empty_false v Hv)).
  now rewrite validate_pass.
Qed.

(** X2.  A line with input on it that every validator accepts is returned
    by the pass that reads it, whatever the default and the optional flag:
    an answer given wins over the default.  Each validator has been called
    once on it, in order, and one line has been taken from the stream. *)
Theorem Ask_returns_accepted_line :
  forall (q : Question) (prompt : string) (w : World) (c' : Context)
         (line rest v : string) (fuel : nat),
    race (ctx w) = ReadFirst c' ->
    cut LF (pending (reader (prompter w))) = Some (line, rest) ->
    TrimRight line crlf = v ->
    v <> EmptyString ->
    Forall (accepts v) (validators q) ->
    Ask (S fuel) q prompt w
    = Return (v, None)
        (logs (calls 0 (length (validators q)) v)
           (after_read prompt c' (advance rest (reader (prompter w))) w)).
Proof.
  intros q prompt w c' line rest v fuel.
  apply Ask_returns_accepted_line_aux.
Qed.

Lemma Ask_returns_accepted_line_witness :
  let q := Is [validName] (Prompter_Default "21") in
  let w := world (New EmptyString (buffer ("Mark" ++ nl ++ "27" ++ nl)))
                 Background in
  race (ctx w) = ReadFirst Background /\
  cut LF (pending (reader (prompter w))) = Some ("Mark" ++ nl, "27" ++ nl) /\
  TrimRight ("Mark" ++ nl) crlf = "Mark" /\
  "Mark" <> EmptyString /\
  Forall (accepts "Mark") (validators q) /\
  Ask 1 q "?" w
  = Return ("Mark", None)
      {| prompter := New "? " (buffer ("27" ++ nl)); term := no_term;
         ctx := Background; trace := [Go_scanLine; Validate 0 "Mark"] |}.
Proof.
  cbv zeta.
  assert (Hne : "Mark" <> EmptyString) by discriminate.
  assert (Hall : Forall (accepts "Mark")
                   (validators (Is [validName] (Prompter_Default "21"))))
    by (repeat constructor).
  split; [reflexivity|]. split; [reflexivity|]. split; [reflexivity|].
  split; [exact Hne|]. split; [exact Hall|].
  exact (Ask_returns_accepted_line (Is [validName] (Prompter_Default "21")) "?"
           (world (New EmptyString (buffer ("Mark" ++ nl ++ "27" ++ nl)))
                  Background)
           Background ("Mark" ++ nl) ("27" ++ nl) "Mark" 0
           eq_refl eq_refl eq_refl Hne Hall).
Defined.

(** X3.  With a default set, a pass that reads a line with nothing on it
    returns the default: no validator is called, and the one line is taken
    from the stream. *)
Theorem Ask_default_on_blank_line :
  forall (q : Question) (prompt : string) (w : World) (c' : Context)
         (line rest : string) (fuel : nat),
    defaultTo q <> EmptyString ->
    race (ctx w) = ReadFirst c' ->
    cut LF (pending (reader (prompter w))) = Some (line, rest) ->
    TrimRight line crlf = EmptyString ->
    Ask (S fuel) q prompt w
    = Return (defaultTo q, None)
        (after_read prompt c' (advance rest (reader (prompter w))) w).
Proof.
  intros q prompt w c' line rest fuel Hd Hrace Hcut Htrim.
  apply Ask_first_pass.
  rewrite (Ask_pass_read q prompt w c' Hrace).
  rewrite (scanLine_line q _ line rest Hcut), Htrim.
  rewrite resolve_not_validated
    by (unfold validated; now rewrite (eqb_empty_false _ Hd)).
  now rewrite (eqb_empty_false _ Hd).
Qed.

Lemma Ask_default_on_blank_line_witness :
  let q := Is [reject "invalid"] (Prompter_Default "21") in
  let w := world (New EmptyString (buffer (crlf ++ "27" ++ nl))) Background in
  defaultTo q <> EmptyString /\
  race (ctx w) = ReadFirst Background /\
  cut LF (pending (reader (prompter w))) = Some (crlf, "27" ++ nl) /\
  TrimRight crlf crlf = EmptyString /\
  Ask 1 q "?" w
  = Return ("21", None)
      {| prompter := New "? " (buffer ("27" ++ nl)); term := no_term;
         ctx := Background; trace := [Go_scanLine] |}.
Proof.
  cbv zeta.
  assert (Hd : defaultTo (Is [reject "invalid"] (Prompter_Default "21"))
               <> EmptyString) by discriminate.
  split; [exact Hd|].
  split; [reflexivity|]. split; [reflexivity|]. split; [reflexivity|].
  exact (Ask_default_on_blank_line
           (Is [reject "invalid"] (Prompter_Default "21")) "?"
           (world (New EmptyString (buffer (crlf ++ "27" ++ nl))) Background)
           Background crlf ("27" ++ nl) 0 Hd eq_refl eq_refl eq_refl).
Defined.

(** X4.  With a default set that every validator accepts, a pass whose
    read runs into the end of the input returns the default, whatever was
    pending without a terminator: those bytes are taken from the stream
    and dropped, and the validators have been called on the default. *)
Theorem Ask_default_at_end_of_input :
  forall (q : Question) (prompt : string) (w : World) (c' : Context)
         (fuel : nat),
    defaultTo q <> EmptyString ->
    race (ctx w) = ReadFirst c' ->
    at_end_of_input (reader (prompter w)) ->
    Forall (accepts (defaultTo q)) (validators q) ->
    Ask (S fuel) q prompt w
    = Return (defaultTo q, None)
        (logs (calls 0 (length (validators q)) (defaultTo q))
           (after_read prompt c' (advance EmptyString (reader (prompter w))) w)).
Proof.
  intros q prompt w c' fuel Hd Hrace Hend Hall.
  apply Ask_first_pass.
  rewrite (Ask_pass_read q prompt w c' Hrace).
  rewrite (scanLine_end q _ Hend), (eqb_empty_false _ Hd). cbn [negb].
  rewrite resolve_validated
    by (unfold validated; now rewrite (eqb_empty_false _ Hd)).
  now rewrite validate_pass.
Qed.

Lemma Ask_default_at_end_of_input_witness :
  let q := Is [validName] (Prompter_Default "idk") in
  let w := world (New EmptyString (buffer "Ma")) Background in
  defaultTo q <> EmptyString /\
  race (ctx w) = ReadFirst Background /\
  at_end_of_input (reader (prompter w)) /\
  Forall (accepts (defaultTo q)) (validators q) /\
  Ask 1 q "?" w
  = Return ("idk", None)
      {| prompter := New "? " (buffer EmptyString); term := no_term;
         ctx := Background; trace := [Go_scanLine; Validate 0 "idk"] |}.
Proof.
  cbv zeta.
  assert (Hd : defaultTo (Is [validName] (Prompter_Default "idk"))
               <> EmptyString) by discriminate.
  assert (Hall : Forall (accepts "idk")
                   (validators (Is [validName] (Prompter_Default "idk"))))
    by (repeat constructor).
  split; [exact Hd|]. split; [reflexivity|].
  split; [split; reflexivity|]. split; [exact Hall|].
  exact (Ask_default_at_end_of_input (Is [validName] (Prompter_Default "idk"))
           "?" (world (New EmptyString (buffer "Ma")) Background)
           Background 0 Hd eq_refl (conj eq_refl eq_refl) Hall).
Defined.

(** X5.  A failure of the stream other than its end is returned as it is,
    whatever the default, the optional flag and the validators; the bytes
    read before it are dropped. *)
Theorem Ask_returns_stream_failure :
  forall (q : Question) (prompt : string) (w : World) (c' : Context)
         (fuel : nat),
    race (ctx w) = ReadFirst c' ->
    cut LF (pending (reader (prompter w))) = None ->
    Is_EOF (ending (reader (prompter w))) = false ->
    Ask (S fuel) q prompt w
    = Return (EmptyString, Some (ending (reader (prompter w))))
        (after_read prompt c' (advance EmptyString (reader (prompter w))) w).
Proof.
  intros q prompt w c' fuel Hrace Hcut Hend.
  apply Ask_first_pass.
  rewrite (Ask_pass_read q prompt w c' Hrace).
  now rewrite (scanLine_failure q _ Hcut Hend).
Qed.

Lemma Ask_returns_stream_failure_witness :
  let r := {| pending := "Ma"; ending := IOError "read: connection reset";
              Fd := None |} in
  let q := Optional true (Prompter_Default "21") in
  let w := world (New EmptyString r) Background in
  race (ctx w) = ReadFirst Background /\
  cut LF (pending (reader (prompter w))) = None /\
  Is_EOF (ending (reader (prompter w))) = false /\
  Ask 1 q "?" w
  = Return (EmptyString, Some (IOError "read: connection reset"))
      {| prompter := New "? " (advance EmptyString r); term := no_term;
         ctx := Background; trace := [Go_scanLine] |}.
Proof.
  cbv zeta. split; [reflexivity|]. split; [reflexivity|]. split; [reflexivity|].
  exact (Ask_returns_stream_failure (Optional true (Prompter_Default "21")) "?"
           (world (New EmptyString
                     {| pending := "Ma";
                        ending := IOError "read: connection reset";
                        Fd := None |}) Background)
           Background 0 eq_refl eq_refl eq_refl).
Defined.

(** ** Blank lines *)

Lemma blank_pass q prompt w line rest :
  defaultTo q = EmptyString -> optional q = false ->
  ctx w = Background ->
  blank line ->
  pending (reader (prompter w)) = line ++ rest ->
  exists w',
    Ask_pass q prompt w = Retry w' /\
    ctx w' = Background /\
    pending (reader (prompter w')) = rest /\
    writer (prompter w') = writer (prompter w) ++ prompt ++ " ".
Proof.
  intros Hd Ho Hc [Hline Htrim] Hpend.
  assert (Hrace : race (ctx w) = ReadFirst Background) by now rewrite Hc.
  assert (Hcut : cut LF (pending (reader (prompter w))) = Some (line, rest))
    by (rewrite Hpend; now apply cut_line_app).
  eexists. split; [|split; [|split]].
  - rewrite (Ask_pass_read q prompt w Background Hrace).
    rewrite (scanLine_line q _ line rest Hcut), Htrim.
    rewrite resolve_not_validated
      by (unfold validated; now rewrite Hd, Ho).
    rewrite Hd. reflexivity.
  - reflexivity.
  - reflexivity.
  - reflexivity.
Qed.

(** X6.  A question without default that is not optional skips lines with
    nothing on them and returns the first line with input on it, trimmed,
    when the validators accept it: after [k] blank lines the call returns
    in pass [k + 1], has written the prompt [k + 1] times and nothing else,
    and leaves pending what followed the line. *)
Theorem Ask_skips_blank_lines :
  forall (q : Question) (prompt : string) (blanks : list string)
         (line rest v : string) (fuel : nat) (w : World),
    defaultTo q = EmptyString -> optional q = false ->
    ctx w = Background ->
    Forall blank blanks ->
    is_line line ->
    TrimRight line crlf = v ->
    v <> EmptyString ->
    Forall (accepts v) (validators q) ->
    pending (reader (prompter w))
    = String.concat EmptyString blanks ++ line ++ rest ->
    exists w',
      Ask (S (length blanks) + fuel) q prompt w = Return (v, None) w' /\
      writer (prompter w')
      = writer (prompter w) ++ prompts (S (length blanks)) prompt /\
      pending (reader (prompter w')) = rest.
Proof.
  intros q prompt blanks line rest v fuel w Hd Ho Hc Hblanks Hline Htrim Hv
         Hall.
  revert w Hc. induction Hblanks as [|b blanks Hb Hblanks IH]; intros w Hc Hpend.
  - cbn [String.concat length] in *. cbn [append] in Hpend.
    assert (Hrace : race (ctx w) = ReadFirst Background) by now rewrite Hc.
    assert (Hcut : cut LF (pending (reader (prompter w))) = Some (line, rest))
      by (rewrite Hpend; now apply cut_line_app).
    eexists. split; [|split].
    + apply (Ask_returns_accepted_line_aux q prompt w Background line rest v
               fuel Hrace Hcut Htrim Hv Hall).
    + cbn [prompts]. rewrite append_nil_r. reflexivity.
    + reflexivity.
  - assert (Hpend' : pending (reader (prompter w))
                     = b ++ (String.concat EmptyString blanks ++ line ++ rest)).
    { rewrite Hpend. destruct blanks as [|b' blanks'].
      - reflexivity.
      - cbn [String.concat]. cbn [append]. now rewrite append_assoc. }
    destruct (blank_pass q prompt w b _ Hd Ho Hc Hb Hpend')
      as (w1 & Hpass & Hc1 & Hp1 & Hw1).
    destruct (IH w1 Hc1 Hp1) as (w' & Hask & Hwr & Hrest).
    exists w'. split; [|split].
    + cbn [length plus]. rewrite (Ask_next_pass _ q prompt w w1 Hpass).
      exact Hask.
    + rewrite Hwr, Hw1. cbn [length prompts].
      now rewrite !append_assoc.
    + exact Hrest.
Qed.

Lemma Ask_skips_blank_lines_witness :
  let q := Prompter_Is [validName] in
  let w := world (New EmptyString
                    (buffer (nl ++ crlf ++ "Mark" ++ nl ++ "27" ++ nl)))
                 Background in
  defaultTo q = EmptyString /\ optional q = false /\ ctx w = Background /\
  Forall blank [nl; crlf] /\ is_line ("Mark" ++ nl) /\
  TrimRight ("Mark" ++ nl) crlf = "Mark" /\ "Mark" <> EmptyString /\
  Forall (accepts "Mark") (validators q) /\
  exists w',
    Ask 3 q "?" w = Return ("Mark", None) w' /\
    writer (prompter w') = "? ? ? " /\
    pending (reader (prompter w')) = "27" ++ nl.
Proof.
  cbv zeta.
  assert (Hb : Forall blank [nl; crlf])
    by (repeat constructor; reflexivity).
  assert (Hne : "Mark" <> EmptyString) by discriminate.
  assert (Hall : Forall (accepts "Mark") (validators (Prompter_Is [validName])))
    by (repeat constructor).
  split; [reflexivity|]. split; [reflexivity|]. split; [reflexivity|].
  split; [exact Hb|]. split; [reflexivity|]. split; [reflexivity|].
  split; [exact Hne|]. split; [exact Hall|].
  exact (Ask_skips_blank_lines (Prompter_Is [validName]) "?" [nl; crlf]
           ("Mark" ++ nl) ("27" ++ nl) "Mark" 0
           (world (New EmptyString
                     (buffer (nl ++ crlf ++ "Mark" ++ nl ++ "27" ++ nl)))
                  Background)
           eq_refl eq_refl eq_refl Hb eq_refl eq_refl Hne Hall eq_refl).
Defined.

(** ** Calls that are bound to return *)

(** A loop whose passes, under an invariant, either return or go back to
    [retry] with a smaller measure, returns within the measure plus one
    passes. *)
Lemma loop_terminates {A} (pass : World -> Outcome A)
      (I : World -> Prop) (m : World -> nat) :
  (forall w, I w ->
     match pass w with
     | Return _ _ => True
     | Retry w' => I w' /\ m w' < m w
     end) ->
  forall n w, I w -> m w <= n ->
    exists r w', loop pass (S n) w = Return r w'.
Proof.
  intros Hpass. induction n as [|n IH]; intros w Hw Hm; cbn [loop].
  - specialize (Hpass w Hw). destruct (pass w) as [r w'|w'].
    + now exists r, w'.
    + destruct Hpass as [_ Hlt]. lia.
  - specialize (Hpass w Hw). destruct (pass w) as [r w'|w'].
    + now exists r, w'.
    + destruct Hpass as [Hw' Hlt]. apply IH; [exact Hw' | lia].
Qed.

Lemma resolve_stands q input w : stands_as w (world_of (resolve q input w)).
Proof.
  unfold resolve.
  destruct (validate_shape (validators q) 0 input w) as (k & _ & _ & Hk).
  destruct (validate (validators q) 0 input w) as [[err|] w1]; cbn in Hk;
    subst w1; repeat break_match; unfold stands_as; cbn; auto.
Qed.

(** A pass of [Ask] for a question that must be answered returns, or it
    has taken one line. *)
Lemma Ask_pass_progress q prompt w :
  defaultTo q = EmptyString -> optional q = false ->
  match Ask_pass q prompt w with
  | Return _ _ => True
  | Retry w' =>
      count LF (pending (reader (prompter w')))
      < count LF (pending (reader (prompter w)))
  end.
Proof.
  intros Hd Ho. unfold Ask_pass, readInput.
  change (ctx (Fprint [prompt; " "] w)) with (ctx w).
  destruct (ctx_Err (ctx w)); [exact I|].
  change (ctx (log Go_scanLine (Fprint [prompt; " "] w))) with (ctx w).
  change (reader (prompter (log Go_scanLine (Fprint [prompt; " "] w))))
    with (reader (prompter w)).
  destruct (race (ctx w)) as [c'|e c'];
    [|destruct (scanLine q (reader (prompter w))); exact I].
  destruct (cut LF (pending (reader (prompter w)))) as [[line rest]|] eqn:Hcut.
  - rewrite (scanLine_line q _ line rest Hcut). cbn [receive].
    match goal with
    | |- context [resolve q ?i ?w1] =>
        pose proof (resolve_stands q i w1) as (Hr & _);
        destruct (resolve q i w1) as [r w'|w']; [exact I|]
    end.
    cbn [world_of] in Hr. rewrite Hr. cbn.
    rewrite (cut_count _ _ _ _ Hcut). lia.
  - destruct (Is_EOF (ending (reader (prompter w)))) eqn:Hend.
    + rewrite (scanLine_end q _ (conj Hcut Hend)), Hd, Ho. exact I.
    + rewrite (scanLine_failure q _ Hcut Hend). exact I.
Qed.

(** X7.  A question without default that is not optional is always
    answered: whatever the validators and the context, [Ask] returns within
    as many passes as the stream has complete lines, plus one; so does
    [Confirm]. *)
Theorem Ask_required_returns :
  forall (Quote : string -> string) (q : Question) (prompt : string)
         (w : World),
    defaultTo q = EmptyString -> optional q = false ->
    (exists r w',
        Ask (S (count LF (pending (reader (prompter w))))) q prompt w
        = Return r w') /\
    (exists r w',
        fst (Confirm Quote (S (count LF (pending (reader (prompter w)))))
               q prompt w)
        = Return r w').
Proof.
  intros Quote q prompt w Hd Ho.
  assert (H : forall q0, defaultTo q0 = EmptyString -> optional q0 = false ->
              exists r w',
                Ask (S (count LF (pending (reader (prompter w))))) q0 prompt w
                = Return r w').
  { intros q0 Hd0 Ho0. unfold Ask.
    apply (loop_terminates (Ask_pass q0 prompt) (fun _ => True)
             (fun w0 => count LF (pending (reader (prompter w0)))));
      [|exact I|lia].
    intros w0 _. pose proof (Ask_pass_progress q0 prompt w0 Hd0 Ho0) as Hp.
    destruct (Ask_pass q0 prompt w0) as [r w1|w1]; [exact I | now split]. }
  split.
  - now apply H.
  - unfold Confirm; cbn [fst].
    destruct (H (Is [yesOrNo Quote] q) Hd Ho) as (r & w' & ->).
    destruct r as [input [err|]]; cbn; eauto.
Qed.

Lemma Ask_required_returns_witness :
  let q := Prompter_Is [reject "invalid"] in
  let w := world (New EmptyString (buffer ("a" ++ nl ++ "b" ++ nl)))
                 Background in
  defaultTo q = EmptyString /\ optional q = false /\
  exists r w', Ask 3 q "?" w = Return r w'.
Proof.
  cbv zeta. split; [reflexivity|]. split; [reflexivity|].
  exact (proj1 (Ask_required_returns quote_plain
                  (Prompter_Is [reject "invalid"]) "?"
                  (world (New EmptyString (buffer ("a" ++ nl ++ "b" ++ nl)))
                         Background)
                  eq_refl eq_refl)).
Defined.

Lemma readInput_ticks q w :
  ctx w <> Background ->
  match readInput q w with
  | ((_, Some _), _) => True
  | ((_, None), w') =>
      ctx w' <> Background /\ reads_left (ctx w') < reads_left (ctx w)
  end.
Proof.
  intros Hc. unfold readInput.
  destruct (ctx w) as [|cause [|n] b] eqn:E; [contradiction| |].
  - destruct b; cbn; [|exact I].
    change (ctx (log Go_scanLine w)) with (ctx w). rewrite E.
    destruct (scanLine q _) as [m r']. exact I.
  - cbn [ctx_Err]. change (ctx (log Go_scanLine w)) with (ctx w).
    rewrite E. cbn [race].
    destruct (scanLine q _) as [[input|err] r']; cbn; [|exact I].
    split; [discriminate | lia].
Qed.

Lemma readPassword_ticks q w :
  ctx w <> Background ->
  match readPassword q w with
  | ((_, Some _), _) => True
  | ((_, None), w') =>
      ctx w' <> Background /\ reads_left (ctx w') < reads_left (ctx w)
  end.
Proof.
  intros Hc. unfold readPassword.
  destruct (ctx w) as [|cause [|n] b] eqn:E; [contradiction| |].
  - destruct b; cbn; [|exact I].
    change (ctx (log Go_scanPassword w)) with (ctx w). rewrite E.
    destruct (scanPassword q _ _) as [[m r'] t']. exact I.
  - cbn [ctx_Err]. change (ctx (log Go_scanPassword w)) with (ctx w).
    rewrite E. cbn [race].
    destruct (scanPassword q _ _) as [[[input|err] r'] t']; cbn; [|exact I].
    split; [discriminate | lia].
Qed.

Lemma resolve_ticks q input w0 w :
  ctx w <> Background /\ reads_left (ctx w) < reads_left (ctx w0) ->
  match resolve q input w with
  | Return _ _ => True
  | Retry w' =>
      ctx w' <> Background /\ reads_left (ctx w') < reads_left (ctx w0)
  end.
Proof.
  intros H. pose proof (resolve_stands q input w) as (_ & _ & _ & Hc).
  destruct (resolve q input w) as [r w'|w']; [exact I|].
  cbn [world_of] in Hc. now rewrite Hc.
Qed.

(** X8.  Under a context that is going to be done, [Ask] and [Password]
    always return, whatever the question and the input: when the context
    lets [n] more reads complete, the call returns within [n + 1] passes. *)
Theorem cancelled_calls_return :
  forall (q : Question) (prompt : string) (w : World) (cause : error)
         (n : nat) (inflight : bool),
    ctx w = WithCancel cause n inflight ->
    (exists r w', Ask (S n) q prompt w = Return r w') /\
    (exists r w', Password (S n) q prompt w = Return r w').
Proof.
  intros q prompt w cause n inflight Hc.
  assert (Hne : ctx w <> Background) by (rewrite Hc; discriminate).
  assert (Hm : reads_left (ctx w) <= n) by (rewrite Hc; cbn; lia).
  split.
  - unfold Ask.
    apply (loop_terminates (Ask_pass q prompt)
             (fun w0 => ctx w0 <> Background)
             (fun w0 => reads_left (ctx w0))); [|exact Hne|exact Hm].
    intros w0 Hw0. unfold Ask_pass.
    pose proof (readInput_ticks q (Fprint [prompt; " "] w0) Hw0) as Hr.
    destruct (readInput q (Fprint [prompt; " "] w0)) as [[input [err|]] w2];
      [exact I|].
    now apply (resolve_ticks q input w0 w2).
  - unfold Password.
    apply (loop_terminates (Password_pass q prompt)
             (fun w0 => ctx w0 <> Background)
             (fun w0 => reads_left (ctx w0))); [|exact Hne|exact Hm].
    intros w0 Hw0. unfold Password_pass.
    pose proof (readPassword_ticks q (Fprint [prompt; " "] w0) Hw0) as Hr.
    destruct (readPassword q (Fprint [prompt; " "] w0)) as [[input [err|]] w2];
      [exact I|].
    now apply (resolve_ticks q input w0 (Fprintln EmptyString w2)).
Qed.

Lemma cancelled_calls_return_witness :
  let q := Is [reject "invalid"] (Prompter_Default "21") in
  let w := world (New EmptyString (buffer EmptyString))
                 (WithCancel Canceled 2 true) in
  ctx w = WithCancel Canceled 2 true /\
  exists r w', Ask 3 q "?" w = Return r w'.
Proof.
  cbv zeta. split; [reflexivity|].
  exact (proj1 (cancelled_calls_return
                  (Is [reject "invalid"] (Prompter_Default "21")) "?"
                  (world (New EmptyString (buffer EmptyString))
                         (WithCancel Canceled 2 true))
                  Canceled 2 true eq_refl)).
Defined.

(** ** The default and the optional flag *)

Lemma loop_ext {A} (pass pass' : World -> Outcome A) :
  (forall w, pass w = pass' w) ->
  forall fuel w, loop pass fuel w = loop pass' fuel w.
Proof.
  intros H. induction fuel as [|fuel IH]; intros w; cbn; [reflexivity|].
  rewrite <- H. destruct (pass w); [reflexivity | apply IH].
Qed.

Lemma scanLine_with_default q o r :
  defaultTo q <> EmptyString -> scanLine (Optional o q) r = scanLine q r.
Proof.
  intros Hd. unfold scanLine. cbn [defaultTo optional Optional].
  rewrite (eqb_empty_false _ Hd). cbn [negb].
  destruct (ReadString LF r) as [[input [e|]] r']; [|reflexivity].
  now destruct (negb (Is_EOF e)).
Qed.

Lemma resolve_with_default q o input w :
  defaultTo q <> EmptyString -> resolve (Optional o q) input w = resolve q input w.
Proof.
  intros Hd. unfold resolve. cbn [defaultTo optional validators Optional].
  now rewrite (eqb_empty_false _ Hd).
Qed.

(** X9.  Once a default is set the optional flag makes no difference:
    [Ask], [Password] and [Confirm] behave the same with the flag set or
    unset, in what they return, write, read and log. *)
Theorem optional_is_moot_with_default :
  forall (Quote : string -> string) (q : Question) (o : bool) (fuel : nat)
         (prompt : string) (w : World),
    defaultTo q <> EmptyString ->
    Ask fuel (Optional o q) prompt w = Ask fuel q prompt w /\
    Password fuel (Optional o q) prompt w = Password fuel q prompt w /\
    fst (Confirm Quote fuel (Optional o q) prompt w)
    = fst (Confirm Quote fuel q prompt w).
Proof.
  intros Quote q o fuel prompt w Hd.
  assert (HA : forall q0, defaultTo q0 <> EmptyString ->
                 Ask fuel (Optional o q0) prompt w = Ask fuel q0 prompt w).
  { intros q0 Hd0. unfold Ask. apply loop_ext. intros w0.
    unfold Ask_pass, readInput.
    rewrite (scanLine_with_default q0 o _ Hd0).
    destruct (ctx_Err _); [reflexivity|].
    destruct (scanLine q0 _) as [[input|err] r'];
      destruct (race _); cbn [receive]; try reflexivity.
    now apply resolve_with_default. }
  split; [|split].
  - now apply HA.
  - unfold Password. apply loop_ext. intros w0.
    unfold Password_pass, readPassword, scanPassword.
    rewrite (scanLine_with_default q o _ Hd).
    destruct (ctx_Err _); [reflexivity|].
    destruct ((-1 <? _)%Z && _).
    + destruct (ReadPassword _) as [[pass [e|]] t'];
        destruct (race _); cbn [receive]; try reflexivity.
      now apply resolve_with_default.
    + destruct (scanLine q _) as [[input|err] r'];
        destruct (race _); cbn [receive]; try reflexivity.
      now apply resolve_with_default.
  - unfold Confirm; cbn [fst]. f_equal.
    apply (HA (Is [yesOrNo Quote] q)). exact Hd.
Qed.

Lemma optional_is_moot_with_default_witness :
  let q := Prompter_Default "21" in
  let w := world (New EmptyString (buffer EmptyString)) Background in
  defaultTo q <> EmptyString /\
  Ask 1 (Optional true q) "?" w = Ask 1 q "?" w.
Proof.
  cbv zeta.
  assert (Hd : defaultTo (Prompter_Default "21") <> EmptyString)
    by discriminate.
  split; [exact Hd|].
  exact (proj1 (optional_is_moot_with_default quote_plain
                  (Prompter_Default "21") true 1 "?"
                  (world (New EmptyString (buffer EmptyString)) Background)
                  Hd)).
Defined.

(** ** What a returned answer is *)

(** X10.  What [Ask] and [Password] return without an error is the
    default, or is an input that every validator has accepted; it is empty
    only for an optional question without default.  What [Confirm] returns
    without an error is [isYes] of the default or of one of the spellings
    of yes and no. *)
Theorem returned_answer_is_default_or_accepted :
  forall (Quote : string -> string) (fuel : nat) (q : Question)
         (prompt : string) (w : World),
    (forall v w',
        Ask fuel q prompt w = Return (v, None) w' ->
        (v = defaultTo q /\ defaultTo q <> EmptyString) \/
        (Forall (accepts v) (validators q) /\
         (v = EmptyString -> defaultTo q = EmptyString /\ optional q = true))) /\
    (forall v w',
        Password fuel q prompt w = Return (v, None) w' ->
        (v = defaultTo q /\ defaultTo q <> EmptyString) \/
        (Forall (accepts v) (validators q) /\
         (v = EmptyString -> defaultTo q = EmptyString /\ optional q = true))) /\
    (forall b w',
        fst (Confirm Quote fuel q prompt w) = Return (b, None) w' ->
        (b = isYes (defaultTo q) /\ defaultTo q <> EmptyString) \/
        (exists v, In v (yes_spellings ++ no_spellings)%list /\
                   b = isYes v /\ (b = true <-> In v yes_spellings))).
Proof.
  intros Quote fuel q prompt w.
  assert (HA : forall q0 v w',
             Ask fuel q0 prompt w = Return (v, None) w' ->
             (v = defaultTo q0 /\ defaultTo q0 <> EmptyString) \/
             (Forall (accepts v) (validators q0) /\
              (v = EmptyString ->
               defaultTo q0 = EmptyString /\ optional q0 = true))).
  { intros q0 v w' H. unfold Ask in H.
    refine (loop_return (Ask_pass q0 prompt)
              (fun r _ => forall v0, r = (v0, None) ->
                 (v0 = defaultTo q0 /\ defaultTo q0 <> EmptyString) \/
                 (Forall (accepts v0) (validators q0) /\
                  (v0 = EmptyString ->
                   defaultTo q0 = EmptyString /\ optional q0 = true)))
              _ fuel w _ _ H v eq_refl).
    intros w0 r w1 Hp v0 ->. unfold Ask_pass in Hp.
    destruct (readInput q0 _) as [[input [err|]] w2]; [discriminate|].
    apply resolve_answer in Hp as [(_ & Hv & Hd) | (_ & Hall & He)]; auto. }
  split; [|split].
  - apply HA.
  - intros v w' H. unfold Password in H.
    refine (loop_return (Password_pass q prompt)
              (fun r _ => forall v0, r = (v0, None) ->
                 (v0 = defaultTo q /\ defaultTo q <> EmptyString) \/
                 (Forall (accepts v0) (validators q) /\
                  (v0 = EmptyString ->
                   defaultTo q = EmptyString /\ optional q = true)))
              _ fuel w _ _ H v eq_refl).
    intros w0 r w1 Hp v0 ->. unfold Password_pass in Hp.
    destruct (readPassword q _) as [[input [err|]] w2]; [discriminate|].
    apply resolve_answer in Hp as [(_ & Hv & Hd) | (_ & Hall & He)]; auto.
  - intros b w' H. unfold Confirm in H; cbn [fst] in H.
    destruct (Ask fuel (Is [yesOrNo Quote] q) prompt w)
      as [[v [err|]] w1|w1] eqn:E; cbn in H; try discriminate.
    inversion H; subst.
    apply HA in E as [[Hv Hd] | [Hall _]].
    + left. cbn in Hv, Hd. now subst v.
    + right. exists v. cbn [validators Is] in Hall.
      apply Forall_app in Hall as [_ Hy]. inversion Hy as [|? ? Hacc _]; subst.
      apply yesOrNo_accepts in Hacc. split; [exact Hacc|].
      split; [reflexivity|]. split.
      * intros Hyes. apply in_app_iff in Hacc as [Hin | Hin]; [exact Hin|].
        cbn in Hin.
        repeat (destruct Hin as [<- | Hin]; [discriminate Hyes|]).
        contradiction.
      * intros Hin. cbn in Hin.
        repeat (destruct Hin as [<- | Hin]; [reflexivity|]). contradiction.
Qed.

Lemma returned_answer_is_default_or_accepted_witness :
  let q := Prompter_Is [validName] in
  let w := world (New EmptyString (buffer ("Am" ++ nl ++ "Amy" ++ nl)))
                 Background in
  let w' := {| prompter := New ("? 'Am' is too short" ++ nl ++ "? ")
                               (buffer EmptyString);
               term := no_term; ctx := Background;
               trace := [Go_scanLine; Validate 0 "Am";
                         Go_scanLine; Validate 0 "Amy"] |} in
  Ask 2 q "?" w = Return ("Amy", None) w' /\
  (("Amy" = defaultTo q /\ defaultTo q <> EmptyString) \/
   (Forall (accepts "Amy") (validators q) /\
    ("Amy" = EmptyString -> defaultTo q = EmptyString /\ optional q = true))).
Proof.
  cbv zeta. split; [reflexivity|].
  exact (proj1 (returned_answer_is_default_or_accepted quote_plain 2
                  (Prompter_Is [validName]) "?"
                  (world (New EmptyString (buffer ("Am" ++ nl ++ "Amy" ++ nl)))
                         Background))
               "Amy" _ eq_refl).
Defined.

(** ** Passwords from the terminal *)

Lemma Password_pass_terminal q prompt w c' :
  on_terminal w = true ->
  race (ctx w) = ReadFirst c' ->
  Password_pass q prompt w =
  match ReadPassword (term w) with
  | ((_, Some err), t') =>
      Return (EmptyString, Some err)
        (after_password prompt c' (reader (prompter w)) t' w)
  | ((pass, None), t') =>
      resolve q pass
        (Fprintln EmptyString
           (after_password prompt c' (reader (prompter w)) t' w))
  end.
Proof.
  unfold on_terminal. intros Hterm Hrace.
  unfold Password_pass, readPassword, scanPassword.
  change (ctx (Fprint [prompt; " "] w)) with (ctx w).
  rewrite (race_live _ _ Hrace).
  change (ctx (log Go_scanPassword (Fprint [prompt; " "] w))) with (ctx w).
  rewrite Hrace.
  change (fd (prompter (log Go_scanPassword (Fprint [prompt; " "] w))))
    with (fd (prompter w)).
  change (term (log Go_scanPassword (Fprint [prompt; " "] w))) with (term w).
  rewrite Hterm.
  now destruct (ReadPassword (term w)) as [[pass [e|]] t'].
Qed.

(** X11.  When the descriptor of the input is a terminal, [Password] takes
    the password from the terminal and returns it as typed, untrimmed, once
    the validators accept it, with a newline written after the prompt; the
    stream behind the reader is left unread.  A failure of the terminal is
    returned as it is, and so is the end of its input: there the default
    does not stand in and [ErrRequired] is not raised. *)
Theorem Password_on_terminal :
  forall (q : Question) (prompt : string) (w : World) (c' : Context)
         (fuel : nat),
    on_terminal w = true ->
    race (ctx w) = ReadFirst c' ->
    (forall pass more,
        typed (term w) = inr pass :: more ->
        pass <> EmptyString ->
        Forall (accepts pass) (validators q) ->
        Password (S fuel) q prompt w
        = Return (pass, None)
            (logs (calls 0 (length (validators q)) pass)
               (Fprintln EmptyString
                  (after_password prompt c' (reader (prompter w))
                     {| ttys := ttys (term w); typed := more |} w)))) /\
    (forall err more,
        typed (term w) = inl err :: more ->
        Password (S fuel) q prompt w
        = Return (EmptyString, Some err)
            (after_password prompt c' (reader (prompter w))
               {| ttys := ttys (term w); typed := more |} w)) /\
    (typed (term w) = [] ->
     Password (S fuel) q prompt w
     = Return (EmptyString, Some EOF)
         (after_password prompt c' (reader (prompter w)) (term w) w)).
Proof.
  intros q prompt w c' fuel Hterm Hrace.
  pose proof (Password_pass_terminal q prompt w c' Hterm Hrace) as Hp.
  unfold Password; cbn [loop]. rewrite Hp. unfold ReadPassword.
  split; [|split].
  - intros pass more -> Hne Hall.
    rewrite resolve_validated
      by (unfold validated; now rewrite (eqb_empty_false _ Hne)).
    now rewrite validate_pass.
  - now intros err more ->.
  - now intros ->.
Qed.

Lemma Password_on_terminal_witness :
  let r := {| pending := "from a pipe" ++ nl; ending := EOF; Fd := Some 0%Z |} in
  let t := {| ttys := [0%Z]; typed := [inr ("s3cret" ++ String CR EmptyString)] |} in
  let w := {| prompter := New EmptyString r; term := t; ctx := Background;
              trace := [] |} in
  on_terminal w = true /\
  race (ctx w) = ReadFirst Background /\
  Password 1 newQuestion "Password:" w
  = Return ("s3cret" ++ String CR EmptyString, None)
      {| prompter := New ("Password: " ++ nl) r;
         term := {| ttys := [0%Z]; typed := [] |};
         ctx := Background; trace := [Go_scanPassword] |}.
Proof.
  cbv zeta. split; [reflexivity|]. split; [reflexivity|].
  exact (proj1 (Password_on_terminal newQuestion "Password:"
           {| prompter := New EmptyString
                {| pending := "from a pipe" ++ nl; ending := EOF;
                   Fd := Some 0%Z |};
              term := {| ttys := [0%Z];
                         typed := [inr ("s3cret" ++ String CR EmptyString)] |};
              ctx := Background; trace := [] |}
           Background 0 eq_refl eq_refl)
         ("s3cret" ++ String CR EmptyString) [] eq_refl
         (fun H => match H in (_ = s) return
                           match s with EmptyString => False | _ => True end
                   with eq_refl => I end)
         (Forall_nil _)).
Defined.

(** ** A context done during the read *)

(** X12.  When the context is done while the read is in flight, [Ask]
    returns the empty string with the context's error.  The goroutine has
    been launched and is left behind: what it reads is taken from the
    stream, a whole line when one is pending, and reaches no caller.  The
    context stays done: any later call returns its error at once, having
    written its prompt and launched nothing. *)
Theorem Ask_done_during_read :
  forall (q : Question) (prompt : string) (w : World) (cause : error)
         (fuel : nat),
    ctx w = WithCancel cause 0 true ->
    let w1 := set_reader (snd (scanLine q (reader (prompter w))))
                (set_ctx (WithCancel cause 0 false)
                   (log Go_scanLine (Fprint [prompt; " "] w))) in
    Ask (S fuel) q prompt w = Return (EmptyString, Some cause) w1 /\
    trace w1 = (trace w ++ [Go_scanLine])%list /\
    writer (prompter w1) = writer (prompter w) ++ prompt ++ " " /\
    (forall line rest,
        cut LF (pending (reader (prompter w))) = Some (line, rest) ->
        pending (reader (prompter w1)) = rest) /\
    (cut LF (pending (reader (prompter w))) = None ->
     pending (reader (prompter w1)) = EmptyString) /\
    (forall q' prompt' fuel',
        Ask (S fuel') q' prompt' w1
        = Return (EmptyString, Some cause) (Fprint [prompt'; " "] w1)).
Proof.
  intros q prompt w cause fuel Hc w1.
  split; [|split; [reflexivity|split; [reflexivity|split; [|split]]]].
  - unfold Ask; cbn [loop]. unfold Ask_pass, readInput.
    change (ctx (Fprint [prompt; " "] w)) with (ctx w). rewrite Hc. cbn [ctx_Err].
    change (ctx (log Go_scanLine (Fprint [prompt; " "] w))) with (ctx w).
    change (reader (prompter (log Go_scanLine (Fprint [prompt; " "] w))))
      with (reader (prompter w)).
    rewrite Hc. subst w1.
    now destruct (scanLine q (reader (prompter w))) as [m r'].
  - intros line rest Hcut. subst w1. cbn.
    now rewrite (scanLine_line q _ line rest Hcut).
  - intros Hcut. subst w1. cbn.
    destruct (Is_EOF (ending (reader (prompter w)))) eqn:Hend.
    + now rewrite (scanLine_end q _ (conj Hcut Hend)).
    + now rewrite (scanLine_failure q _ Hcut Hend).
  - intros q' prompt' fuel'. unfold Ask; cbn [loop].
    unfold Ask_pass, readInput. reflexivity.
Qed.

Lemma Ask_done_during_read_witness :
  let w := world (New EmptyString (buffer ("Mark" ++ nl ++ "27" ++ nl)))
                 (WithCancel DeadlineExceeded 0 true) in
  ctx w = WithCancel DeadlineExceeded 0 true /\
  Ask 1 newQuestion "?" w
  = Return (EmptyString, Some DeadlineExceeded)
      {| prompter := New "? " (buffer ("27" ++ nl)); term := no_term;
         ctx := WithCancel DeadlineExceeded 0 false;
         trace := [Go_scanLine] |}.
Proof.
  cbv zeta. split; [reflexivity|].
  exact (proj1 (Ask_done_during_read newQuestion "?"
                  (world (New EmptyString (buffer ("Mark" ++ nl ++ "27" ++ nl)))
                         (WithCancel DeadlineExceeded 0 true))
                  DeadlineExceeded 0 eq_refl)).
Defined.

(** ** An optional question at the end of the input *)

Lemma Ask_optional_stuck q prompt :
  defaultTo q = EmptyString -> optional q = true ->
  ~ Forall (accepts EmptyString) (validators q) ->
  forall fuel w,
    ctx w = Background ->
    at_end_of_input (reader (prompter w)) ->
    TrimRight (pending (reader (prompter w))) crlf = EmptyString ->
    exists w', Ask fuel q prompt w = Retry w'.
Proof.
  intros Hd Ho Hrej fuel w Hc Hend Htrim.
  pose proof (loop_inv (Ask_pass q prompt)
    (fun w0 => ctx w0 = Background /\
               at_end_of_input (reader (prompter w0)) /\
               TrimRight (pending (reader (prompter w0))) crlf = EmptyString)
    (fun _ _ => False)) as L.
  assert (Hpass : forall w0,
             ctx w0 = Background ->
             at_end_of_input (reader (prompter w0)) ->
             TrimRight (pending (reader (prompter w0))) crlf = EmptyString ->
             exists err k,
               Ask_pass q prompt w0
               = Retry (Fprintln (Error err)
                          (logs (calls 0 k EmptyString)
                             (after_read prompt Background
                                (advance EmptyString (reader (prompter w0)))
                                w0)))).
  { intros w0 Hc0 Hend0 Htrim0.
    assert (Hrace : race (ctx w0) = ReadFirst Background) by now rewrite Hc0.
    rewrite (Ask_pass_read q prompt w0 Background Hrace).
    rewrite (scanLine_end q _ Hend0), Hd, Ho, Htrim0. cbn [String.eqb negb].
    rewrite resolve_validated by (unfold validated; now rewrite Hd, Ho).
    destruct (validators_split (validators q) EmptyString)
      as [Hall | (pre & v & post & err & Hvs & Hpre & Hv)]; [contradiction|].
    exists err, (S (length pre)). rewrite Hvs.
    now rewrite (validate_fail pre v post 0 EmptyString _ err Hpre Hv). }
  unfold Ask.
  lazymatch type of L with
  | ?A -> ?B -> _ => assert (HA : A); [|assert (HB : B)]
  end.
  - intros w0 w1 (Hc0 & Hend0 & Htrim0) Hp.
    destruct (Hpass w0 Hc0 Hend0 Htrim0) as (err & k & Hp').
    rewrite Hp' in Hp. inversion Hp; subst w1. cbn.
    destruct Hend0 as [_ Heof]. repeat split; auto.
  - intros w0 r w1 (Hc0 & Hend0 & Htrim0) Hp.
    destruct (Hpass w0 Hc0 Hend0 Htrim0) as (err & k & Hp').
    rewrite Hp' in Hp. discriminate Hp.
  - specialize (L HA HB fuel w (conj Hc (conj Hend Htrim))).
    destruct (loop (Ask_pass q prompt) fuel w) as [r w'|w'];
      [contradiction | now exists w'].
Qed.

(** X13.  An optional question without default whose validators do not
    all accept the empty string never returns once the input has come to
    its end under a context that is never done: every pass reads the empty
    input again, has it rejected, writes the message and goes back to
    [retry].  [Confirm] on an optional question is such a call, its own
    validator rejecting the empty string. *)
Theorem optional_never_returns_at_end_of_input :
  forall (Quote : string -> string) (q : Question) (prompt : string)
         (w : World),
    defaultTo q = EmptyString -> optional q = true ->
    ctx w = Background ->
    at_end_of_input (reader (prompter w)) ->
    TrimRight (pending (reader (prompter w))) crlf = EmptyString ->
    (forall v err,
        In v (validators q) -> v EmptyString = Some err ->
        forall fuel, exists w', Ask fuel q prompt w = Retry w') /\
    (forall fuel,
        exists w', fst (Confirm Quote fuel q prompt w) = Retry w').
Proof.
  intros Quote q prompt w Hd Ho Hc Hend Htrim. split.
  - intros v err Hin Hv fuel.
    apply (Ask_optional_stuck q prompt Hd Ho); auto.
    intros Hall. rewrite Forall_forall in Hall.
    specialize (Hall v Hin). unfold accepts in Hall. congruence.
  - intros fuel. unfold Confirm; cbn [fst].
    destruct (Ask_optional_stuck (Is [yesOrNo Quote] q) prompt Hd Ho)
      with (fuel := fuel) (w := w) as [w' Hw']; auto.
    + cbn [validators Is]. intros Hall.
      apply Forall_app in Hall as [_ Hy].
      inversion Hy as [|? ? Hacc _]; subst. discriminate Hacc.
    + exists w'. now rewrite Hw'.
Qed.

Lemma optional_never_returns_at_end_of_input_witness :
  let q := Prompter_Optional true in
  let w := world (New EmptyString (buffer EmptyString)) Background in
  defaultTo q = EmptyString /\ optional q = true /\ ctx w = Background /\
  at_end_of_input (reader (prompter w)) /\
  TrimRight (pending (reader (prompter w))) crlf = EmptyString /\
  exists w', fst (Confirm quote_plain 5 q "Create new user? (yes/no)" w)
             = Retry w'.
Proof.
  cbv zeta. split; [reflexivity|]. split; [reflexivity|].
  split; [reflexivity|]. split; [split; reflexivity|]. split; [reflexivity|].
  exact (proj2 (optional_never_returns_at_end_of_input quote_plain
                  (Prompter_Optional true) "Create new user? (yes/no)"
                  (world (New EmptyString (buffer EmptyString)) Background)
                  eq_refl eq_refl eq_refl (conj eq_refl eq_refl) eq_refl)
               5).
Defined.

(** X14.  [Confirm] on a question with a default answers an empty line
    with [isYes] of the default in the pass that reads it; the yes/no
    validator is not consulted, so the default need not be a spelling of
    yes or no. *)
Theorem Confirm_default_on_blank_line :
  forall (Quote : string -> string) (q : Question) (prompt : string)
         (w : World) (c' : Context) (line rest : string) (fuel : nat),
    defaultTo q <> EmptyString ->
    race (ctx w) = ReadFirst c' ->
    cut LF (pending (reader (prompter w))) = Some (line, rest) ->
    TrimRight line crlf = EmptyString ->
    fst (Confirm Quote (S fuel) q prompt w)
    = Return (isYes (defaultTo q), None)
        (after_read prompt c' (advance rest (reader (prompter w))) w).
Proof.
  intros Quote q prompt w c' line rest fuel Hd Hrace Hcut Htrim.
  unfold Confirm; cbn [fst].
  rewrite (Ask_first_pass fuel (Is [yesOrNo Quote] q) prompt w
             (defaultTo q, None)
             (after_read prompt c' (advance rest (reader (prompter w))) w)).
  - reflexivity.
  - rewrite (Ask_pass_read _ prompt w c' Hrace).
    rewrite (scanLine_line _ _ line rest Hcut), Htrim.
    rewrite resolve_not_validated
      by (unfold validated; cbn [defaultTo Is];
          now rewrite (eqb_empty_false _ Hd)).
    cbn [defaultTo Is]. now rewrite (eqb_empty_false _ Hd).
Qed.

Lemma Confirm_default_on_blank_line_witness :
  let q := Prompter_Default "true" in
  let w := world (New EmptyString (buffer nl)) Background in
  defaultTo q <> EmptyString /\
  race (ctx w) = ReadFirst Background /\
  cut LF (pending (reader (prompter w))) = Some (nl, EmptyString) /\
  TrimRight nl crlf = EmptyString /\
  yesOrNo quote_plain "true" <> None /\
  fst (Confirm quote_plain 1 q "?" w)
  = Return (true, None)
      {| prompter := New "? " (buffer EmptyString); term := no_term;
         ctx := Background; trace := [Go_scanLine] |}.
Proof.
  cbv zeta.
  assert (Hd : defaultTo (Prompter_Default "true") <> EmptyString)
    by discriminate.
  split; [exact Hd|]. split; [reflexivity|]. split; [reflexivity|].
  split; [reflexivity|]. split; [discriminate|].
  exact (Confirm_default_on_blank_line quote_plain (Prompter_Default "true") "?"
           (world (New EmptyString (buffer nl)) Background)
           Background nl EmptyString 0 Hd eq_refl eq_refl eq_refl).
Defined.

(** ** Passwords from a stream *)

Lemma validate_verdict vs i input w w' :
  fst (validate vs i input w) = fst (validate vs i input w').
Proof.
  revert i w w'. induction vs as [|v vs IH]; intros i w w'; cbn;
    [reflexivity|].
  destruct (v input); [reflexivity | apply IH].
Qed.

Lemma resolve_result q input w w' :
  result_of (resolve q input w) = result_of (resolve q input w').
Proof.
  unfold resolve.
  pose proof (validate_verdict (validators q) 0 input w w') as Hv.
  destruct (validate (validators q) 0 input w) as [[e|] w1],
           (validate (validators q) 0 input w') as [[e'|] w1'];
    cbn in Hv; try discriminate; repeat break_match; reflexivity.
Qed.

Lemma stands_as_sym w w' : stands_as w w' -> stands_as w' w.
Proof. intros (H1 & H2 & H3 & H4). repeat split; congruence. Qed.

Lemma stands_as_trans a b c : stands_as a b -> stands_as b c -> stands_as a c.
Proof.
  intros (H1 & H2 & H3 & H4) (G1 & G2 & G3 & G4). repeat split; congruence.
Qed.

Lemma on_terminal_stands w w' :
  stands_as w w' -> on_terminal w' = on_terminal w.
Proof. intros (_ & Hf & Ht & _). unfold on_terminal. now rewrite Hf, Ht. Qed.

Lemma resolve_sim q input w w' :
  stands_as w w' ->
  result_of (resolve q input w') = result_of (resolve q input w) /\
  stands_as (world_of (resolve q input w)) (world_of (resolve q input w')).
Proof.
  intros H. split; [apply resolve_result|].
  eapply stands_as_trans; [|apply resolve_stands].
  eapply stands_as_trans; [|exact H].
  apply stands_as_sym, resolve_stands.
Qed.

Lemma Password_pass_off_terminal q prompt wA wP :
  stands_as wA wP -> on_terminal wP = false ->
  result_of (Password_pass q prompt wP) = result_of (Ask_pass q prompt wA) /\
  stands_as (world_of (Ask_pass q prompt wA))
            (world_of (Password_pass q prompt wP)).
Proof.
  destruct wA as [[wrA rd f] t c trA], wP as [[wrP rdP fP] tP cP trP].
  unfold stands_as, on_terminal; cbn.
  intros (-> & -> & -> & ->) Hoff.
  unfold Ask_pass, Password_pass, readInput, readPassword, scanPassword; cbn.
  rewrite Hoff.
  destruct (ctx_Err c); [now repeat split|].
  destruct (scanLine q rd) as [[input|err] r'];
    destruct (race c) as [c'|e c']; cbn [receive];
    try (now repeat split).
  apply resolve_sim. now repeat split.
Qed.

Lemma Password_pass_keeps_off q prompt w :
  on_terminal w = false ->
  on_terminal (world_of (Password_pass q prompt w)) = false.
Proof.
  intros Ho. unfold Password_pass, readPassword, scanPassword.
  change (fd (prompter (log Go_scanPassword (Fprint [prompt; " "] w))))
    with (fd (prompter w)).
  change (term (log Go_scanPassword (Fprint [prompt; " "] w))) with (term w).
  unfold on_terminal in Ho. rewrite Ho.
  destruct (ctx_Err _); [exact Ho|].
  destruct (scanLine q _) as [[input|err] r'];
    destruct (race _); cbn [receive]; try exact Ho.
  match goal with
  | |- context [resolve q ?i ?w1] =>
      pose proof (resolve_stands q i w1) as (_ & Hf & Ht & _)
  end.
  unfold on_terminal. rewrite Hf, Ht. exact Ho.
Qed.

Lemma loop_sim {A} (R : World -> World -> Prop)
      (pass pass' : World -> Outcome A) :
  (forall w w', R w w' ->
     result_of (pass' w') = result_of (pass w) /\
     R (world_of (pass w)) (world_of (pass' w'))) ->
  forall fuel w w', R w w' ->
    result_of (loop pass' fuel w') = result_of (loop pass fuel w) /\
    R (world_of (loop pass fuel w)) (world_of (loop pass' fuel w')).
Proof.
  intros Hpass. induction fuel as [|fuel IH]; intros w w' Hw; cbn.
  - now split.
  - destruct (Hpass w w' Hw) as [Hr HR].
    destruct (pass w) as [r w1|w1], (pass' w') as [r' w1'|w1'];
      cbn in Hr, HR; try discriminate.
    + now split.
    + now apply IH.
Qed.

(** X15.  When the descriptor of the input is not a terminal, [Password]
    reads lines as [Ask] does: with the same fuel it returns what [Ask]
    returns, or like [Ask] has not returned yet, and leaves the stream, the
    terminal and the context as [Ask] leaves them.  A prompter made by
    [New] over a reader without descriptor is in that case. *)
Theorem Password_off_terminal_is_Ask :
  forall (fuel : nat) (q : Question) (prompt : string) (w : World),
    on_terminal w = false ->
    result_of (Password fuel q prompt w) = result_of (Ask fuel q prompt w) /\
    stands_as (world_of (Ask fuel q prompt w))
              (world_of (Password fuel q prompt w)) /\
    (forall out r t c tr,
        Fd r = None ->
        on_terminal {| prompter := New out r; term := t; ctx := c;
                       trace := tr |} = false).
Proof.
  intros fuel q prompt w Hoff.
  destruct (loop_sim (fun wA wP => stands_as wA wP /\ on_terminal wP = false)
              (Ask_pass q prompt) (Password_pass q prompt)) 
    with (fuel := fuel) (w := w) (w' := w) as [Hr [Hs _]].
  - intros wA wP [Hs Ho].
    destruct (Password_pass_off_terminal q prompt wA wP Hs Ho) as [Hr Hs'].
    split; [exact Hr|]. split; [exact Hs'|].
    now apply Password_pass_keeps_off.
  - split; [|exact Hoff]. now repeat split.
  - split; [exact Hr|]. split; [exact Hs|].
    intros out r t c tr Hfd. unfold on_terminal, New, getFd; cbn.
    now rewrite Hfd.
Qed.

Lemma Password_off_terminal_is_Ask_witness :
  let w := world (New EmptyString
                    (buffer ("mypassword" ++ nl ++ "some password" ++ nl)))
                 Background in
  on_terminal w = false /\
  result_of (Password 2 (Prompter_Is [validName]) "?" w)
  = result_of (Ask 2 (Prompter_Is [validName]) "?" w).
Proof.
  cbv zeta. split; [reflexivity|].
  exact (proj1 (Password_off_terminal_is_Ask 2 (Prompter_Is [validName]) "?"
                  (world (New EmptyString
                            (buffer ("mypassword" ++ nl ++ "some password"
                                     ++ nl)))
                         Background)
                  eq_refl)).
Defined.

(** ** An optional question and empty input *)

(** X16.  An optional question without default whose validators accept
    the empty string returns it, without error, in the pass that reads a
    line with nothing on it; and in a pass whose read runs into the end of
    the input it returns what was pending without a terminator, trimmed,
    when the validators accept that. *)
Theorem Ask_optional_accepts_empty :
  forall (q : Question) (prompt : string) (w : World) (c' : Context)
         (fuel : nat),
    defaultTo q = EmptyString -> optional q = true ->
    race (ctx w) = ReadFirst c' ->
    (forall line rest,
        cut LF (pending (reader (prompter w))) = Some (line, rest) ->
        TrimRight line crlf = EmptyString ->
        Forall (accepts EmptyString) (validators q) ->
        Ask (S fuel) q prompt w
        = Return (EmptyString, None)
            (logs (calls 0 (length (validators q)) EmptyString)
               (after_read prompt c' (advance rest (reader (prompter w))) w))) /\
    (forall v,
        at_end_of_input (reader (prompter w)) ->
        TrimRight (pending (reader (prompter w))) crlf = v ->
        Forall (accepts v) (validators q) ->
        Ask (S fuel) q prompt w
        = Return (v, None)
            (logs (calls 0 (length (validators q)) v)
               (after_read prompt c'
                  (advance EmptyString (reader (prompter w))) w))).
Proof.
  intros q prompt w c' fuel Hd Ho Hrace.
  assert (Hval : forall v, validated q v = true)
    by (intros v; unfold validated; rewrite Hd, Ho; cbn;
        now rewrite orb_true_r).
  split.
  - intros line rest Hcut Htrim Hall. apply Ask_first_pass.
    rewrite (Ask_pass_read q prompt w c' Hrace).
    rewrite (scanLine_line q _ line rest Hcut), Htrim.
    rewrite resolve_validated by apply Hval. now rewrite validate_pass.
  - intros v Hend Htrim Hall. apply Ask_first_pass.
    rewrite (Ask_pass_read q prompt w c' Hrace).
    rewrite (scanLine_end q _ Hend), Hd, Ho, Htrim. cbn [String.eqb negb].
    rewrite resolve_validated by apply Hval. now rewrite validate_pass.
Qed.

Lemma Ask_optional_accepts_empty_witness :
  let q := Prompter_Optional true in
  let w := world (New EmptyString (buffer "27")) Background in
  defaultTo q = EmptyString /\ optional q = true /\
  race (ctx w) = ReadFirst Background /\
  at_end_of_input (reader (prompter w)) /\
  TrimRight (pending (reader (prompter w))) crlf = "27" /\
  Forall (accepts "27") (validators q) /\
  Ask 1 q "?" w
  = Return ("27", None)
      {| prompter := New "? " (buffer EmptyString); term := no_term;
         ctx := Background; trace := [Go_scanLine] |}.
Proof.
  cbv zeta. split; [reflexivity|]. split; [reflexivity|].
  split; [reflexivity|]. split; [split; reflexivity|].
  split; [reflexivity|]. split; [constructor|].
  exact (proj2 (Ask_optional_accepts_empty (Prompter_Optional true) "?"
                  (world (New EmptyString (buffer "27")) Background)
                  Background 0 eq_refl eq_refl eq_refl)
               "27" (conj eq_refl eq_refl) eq_refl (Forall_nil _)).
Defined.

(** ** What is taken from the stream *)

Lemma remains_refl s : remains s s.
Proof. now exists EmptyString. Qed.

Lemma remains_trans a b c : remains a b -> remains b c -> remains a c.
Proof.
  intros [t ->] [u ->]. exists (t ++ u). now rewrite append_assoc.
Qed.

Lemma remains_nothing s : remains s EmptyString.
Proof. exists s. now rewrite append_nil_r. Qed.

Lemma scanLine_remains q r :
  remains (pending r) (pending (snd (scanLine q r))) /\
  ending (snd (scanLine q r)) = ending r /\ Fd (snd (scanLine q r)) = Fd r.
Proof.
  destruct (cut LF (pending r)) as [[line rest]|] eqn:Hcut.
  - rewrite (scanLine_line q r line rest Hcut). cbn. repeat split.
    exists line. now apply cut_app in Hcut.
  - destruct (Is_EOF (ending r)) eqn:Hend.
    + rewrite (scanLine_end q r (conj Hcut Hend)). cbn. repeat split.
      apply remains_nothing.
    + rewrite (scanLine_failure q r Hcut Hend). cbn. repeat split.
      apply remains_nothing.
Qed.

(** The stream of [w'] is the stream of [w], some of it taken. *)
Lemma taken_refl w :
  remains (pending (reader (prompter w))) (pending (reader (prompter w))) /\
  ending (reader (prompter w)) = ending (reader (prompter w)) /\
  Fd (reader (prompter w)) = Fd (reader (prompter w)) /\
  fd (prompter w) = fd (prompter w).
Proof. repeat split. apply remains_refl. Qed.

Lemma readInput_taken q w :
  let w' := snd (readInput q w) in
  remains (pending (reader (prompter w))) (pending (reader (prompter w'))) /\
  ending (reader (prompter w')) = ending (reader (prompter w)) /\
  Fd (reader (prompter w')) = Fd (reader (prompter w)) /\
  fd (prompter w') = fd (prompter w).
Proof.
  cbv zeta. unfold readInput.
  destruct (ctx_Err (ctx w)); [cbn; repeat split; apply remains_refl|].
  change (ctx (log Go_scanLine w)) with (ctx w).
  change (reader (prompter (log Go_scanLine w))) with (reader (prompter w)).
  pose proof (scanLine_remains q (reader (prompter w))) as (Hr & He & Hf).
  destruct (scanLine q (reader (prompter w))) as [[input|err] r'];
    destruct (race (ctx w)); cbn in *; auto.
Qed.

Lemma readPassword_taken q w :
  let w' := snd (readPassword q w) in
  remains (pending (reader (prompter w))) (pending (reader (prompter w'))) /\
  ending (reader (prompter w')) = ending (reader (prompter w)) /\
  Fd (reader (prompter w')) = Fd (reader (prompter w)) /\
  fd (prompter w') = fd (prompter w).
Proof.
  cbv zeta. unfold readPassword, scanPassword.
  destruct (ctx_Err (ctx w)); [cbn; repeat split; apply remains_refl|].
  change (ctx (log Go_scanPassword w)) with (ctx w).
  change (prompter (log Go_scanPassword w)) with (prompter w).
  change (term (log Go_scanPassword w)) with (term w).
  destruct ((-1 <? fd (prompter w))%Z && IsTerminal (term w) (fd (prompter w))).
  - destruct (ReadPassword (term w)) as [[pass [e|]] t'];
      destruct (race (ctx w)); cbn; repeat split; apply remains_refl.
  - pose proof (scanLine_remains q (reader (prompter w))) as (Hr & He & Hf).
    destruct (scanLine q (reader (prompter w))) as [[input|err] r'];
      destruct (race (ctx w)); cbn in *; auto.
Qed.

(** X17.  [Ask] and [Password] take their input from the front of the
    stream and nothing else: what is pending after a call, however far it
    has got, is what was pending before with a front part removed; the
    error that ends the stream and the descriptors are untouched. *)
Theorem input_is_taken_from_the_front :
  forall (fuel : nat) (q : Question) (prompt : string) (w : World),
    (let w' := world_of (Ask fuel q prompt w) in
     remains (pending (reader (prompter w))) (pending (reader (prompter w'))) /\
     ending (reader (prompter w')) = ending (reader (prompter w)) /\
     Fd (reader (prompter w')) = Fd (reader (prompter w)) /\
     fd (prompter w') = fd (prompter w)) /\
    (let w' := world_of (Password fuel q prompt w) in
     remains (pending (reader (prompter w))) (pending (reader (prompter w'))) /\
     ending (reader (prompter w')) = ending (reader (prompter w)) /\
     Fd (reader (prompter w')) = Fd (reader (prompter w)) /\
     fd (prompter w') = fd (prompter w)).
Proof.
  intros fuel q prompt w.
  set (T := fun w0 w1 : World =>
    remains (pending (reader (prompter w0))) (pending (reader (prompter w1))) /\
    ending (reader (prompter w1)) = ending (reader (prompter w0)) /\
    Fd (reader (prompter w1)) = Fd (reader (prompter w0)) /\
    fd (prompter w1) = fd (prompter w0)).
  assert (Ttrans : forall a b c, T a b -> T b c -> T a c).
  { intros a b c (R1 & E1 & F1 & G1) (R2 & E2 & F2 & G2). unfold T.
    repeat split; try congruence. eapply remains_trans; eauto. }
  assert (Tstands : forall a b, stands_as a b -> T a b).
  { intros a b (Hr & Hf & _). unfold T. rewrite Hr, Hf. apply taken_refl. }
  assert (Tloop : forall (pass : World -> Outcome (string * option error)),
             (forall w0, T w0 (world_of (pass w0))) ->
             forall n w0, T w0 (world_of (loop pass n w0))).
  { intros pass Hpass. induction n as [|n IH]; intros w0; cbn.
    - apply taken_refl.
    - specialize (Hpass w0). destruct (pass w0) as [r w1|w1]; cbn in *;
        [exact Hpass|]. eapply Ttrans; [exact Hpass | apply IH]. }
  split; cbv zeta.
  - apply (Tloop (Ask_pass q prompt)). intros w0. unfold Ask_pass.
    pose proof (readInput_taken q (Fprint [prompt; " "] w0)) as Hr.
    destruct (readInput q (Fprint [prompt; " "] w0)) as [[input [err|]] w2];
      cbn [snd] in Hr; [exact Hr|].
    eapply Ttrans; [exact Hr|]. apply Tstands, resolve_stands.
  - apply (Tloop (Password_pass q prompt)). intros w0. unfold Password_pass.
    pose proof (readPassword_taken q (Fprint [prompt; " "] w0)) as Hr.
    destruct (readPassword q (Fprint [prompt; " "] w0))
      as [[input [err|]] w2]; cbn [snd] in Hr; [exact Hr|].
    eapply Ttrans; [exact Hr|].
    apply (Tstands w2). 
    eapply stands_as_trans; [|apply resolve_stands]. now repeat split.
Qed.
